(** * Matrix accelerator benchmark for Nios II: a shallow embedding

    Source: [src/software/nios2_matrix_accel_benchmark.c].

    The program computes the sum, the difference and the product of two
    4x4 matrices of [int16_t] twice: once in software
    ([software_matrix_operations]) and once by driving a memory-mapped
    accelerator ([hardware_matrix_operations]); [main] times both with the
    interval timer and prints the ratio of the two cycle counts.

    Integers are modelled as [Z] with the C conversions written out; the
    two routines that talk to devices are interaction trees over bus
    events, observed by a step-bounded runner against a device model. *)

From Stdlib Require Import ZArith List Lia Bool.
From stdpp Require Import base option list.
From ITree Require Import ITree.
From ITree Require Import Eq.Shallow.

Local Open Scope Z_scope.

(** ** Fixed-width integers *)

Module Int.

(** Value ranges of [int16_t], [int32_t] and [uint32_t]. *)
Definition in_int16 (z : Z) : Prop := -32768 <= z <= 32767.
Definition in_int32 (z : Z) : Prop := -2147483648 <= z <= 2147483647.
Definition in_uint32 (z : Z) : Prop := 0 <= z <= 4294967295.

(** Conversion to [uint32_t]: reduction modulo 2^32. *)
Definition to_uint32 (z : Z) : Z := z mod 2 ^ 32.

(** Conversion to [int32_t]: the value whose 32-bit two's-complement
    pattern is [z mod 2^32]. *)
Definition to_int32 (z : Z) : Z := (z + 2 ^ 31) mod 2 ^ 32 - 2 ^ 31.

(** [int32_t] arithmetic as the Nios II executes it: the exact result
    wrapped to 32 bits.  C leaves the case in which the exact result is
    outside [int32_t] undefined; an operation overflows when its wrapped
    result differs from the exact one. *)
Definition add32 (x y : Z) : Z := to_int32 (x + y).
Definition sub32 (x y : Z) : Z := to_int32 (x - y).
Definition mul32 (x y : Z) : Z := to_int32 (x * y).

(** [uint32_t] arithmetic. *)
Definition usub32 (x y : Z) : Z := to_uint32 (x - y).
Definition ushl32 (x : Z) (n : Z) : Z := to_uint32 (Z.shiftl x n).
Definition uor32 (x y : Z) : Z := Z.lor x y.
Definition uand32 (x y : Z) : Z := Z.land x y.

(** [x / y] on [uint32_t]; [None] is the undefined division by zero. *)
Definition udiv32 (x y : Z) : option Z :=
  if y =? 0 then None else Some (x / y).

(** The 16-bit two's-complement pattern of an [int16_t] value, and the
    32-bit word obtained from a 16-bit pattern by copying bit 15 into
    bits 16..31. *)
Definition bits16 (x : Z) : Z := x mod 2 ^ 16.
Definition sign_extend16 (w : Z) : Z :=
  if Z.testbit w 15 then Z.lor w 4294901760 else w.

End Int.
Import Int.

(** ** Arrays and counted loops *)

(** [M[i]] for an array held as a list; the arrays of the program all have
    16 elements and every index the code forms is below 16. *)
Definition elt (M : list Z) (i : nat) : Z := default 0 (M !! i).

(** [for (i = lo; i < lo + n; i++) s = body i s]. *)
Fixpoint for_loop {S : Type} (lo n : nat) (body : nat -> S -> S) (s : S) : S :=
  match n with
  | O => s
  | Datatypes.S n' => for_loop (Datatypes.S lo) n' body (body lo s)
  end.

(** ** Matrices over the integers *)

(** [f 0 + ... + f (n - 1)]. *)
Fixpoint sigma (n : nat) (f : nat -> Z) : Z :=
  match n with
  | O => 0
  | Datatypes.S n' => sigma n' f + f n'
  end.

(** Sum, difference and product of two row-major 4x4 matrices, without
    any bound on the numbers. *)
Definition matrix_sum (A B : list Z) : list Z :=
  map (fun i => elt A i + elt B i) (seq 0 16).
Definition matrix_diff (A B : list Z) : list Z :=
  map (fun i => elt A i - elt B i) (seq 0 16).
Definition matrix_cell (A B : list Z) (i j : nat) : Z :=
  sigma 4 (fun k => elt A (i * 4 + k) * elt B (k * 4 + j)).
Definition matrix_product (A B : list Z) : list Z :=
  flat_map (fun i => map (fun j => matrix_cell A B i j) (seq 0 4)) (seq 0 4).

(** ** The software engine (lines 26-64) *)

Definition SAFE_INPUT_MAX : Z := 23170.

(** Every element of an operand lies in [-SAFE_INPUT_MAX, SAFE_INPUT_MAX]. *)
Definition safe_elt (x : Z) : Prop := - SAFE_INPUT_MAX <= x <= SAFE_INPUT_MAX.
Definition safe_matrix (M : list Z) : Prop :=
  length M = 16%nat /\ Forall safe_elt M.
Definition int16_matrix (M : list Z) : Prop :=
  length M = 16%nat /\ Forall in_int16 M.

Definition safe_matrixb (M : list Z) : bool :=
  (length M =? 16)%nat &&
  forallb (fun x => (- SAFE_INPUT_MAX <=? x) && (x <=? SAFE_INPUT_MAX)) M.

(** The accumulator [sum] of lines 48-51 after the first [n] rounds of the
    [k] loop, for the cell in row [i] and column [j]. *)
Definition dot_acc (A B : list Z) (i j n : nat) : Z :=
  for_loop 0 n
    (fun k sum =>
       add32 sum (mul32 (to_int32 (elt A (i * 4 + k)))
                        (to_int32 (elt B (k * 4 + j)))))
    0.

(** The three loops of the function, each on the buffer it fills. *)
Definition sw_sum_loop (A B SW_Sum : list Z) : list Z :=
  for_loop 0 16
    (fun i SW_Sum =>
       <[ i := add32 (to_int32 (elt A i)) (to_int32 (elt B i)) ]> SW_Sum)
    SW_Sum.

Definition sw_diff_loop (A B SW_Diff : list Z) : list Z :=
  for_loop 0 16
    (fun i SW_Diff =>
       <[ i := sub32 (to_int32 (elt A i)) (to_int32 (elt B i)) ]> SW_Diff)
    SW_Diff.

Definition sw_prod_loop (A B SW_Result : list Z) : list Z :=
  for_loop 0 4
    (fun i SW_Result =>
       for_loop 0 4
         (fun j SW_Result =>
            let sum := dot_acc A B i j 4 in
            <[ (i * 4 + j)%nat := sum ]> SW_Result)
         SW_Result)
    SW_Result.

(** [software_matrix_operations A B SW_Sum SW_Diff SW_Result]: the three
    output buffers after the call. *)
Definition software_matrix_operations
    (A B SW_Sum SW_Diff SW_Result : list Z) : list Z * list Z * list Z :=
  (sw_sum_loop A B SW_Sum, sw_diff_loop A B SW_Diff, sw_prod_loop A B SW_Result).

(** The 4x4 identity and the matrix 1..16 used as examples in the
    documentation. *)
Definition identity4 : list Z :=
  [1; 0; 0; 0;  0; 1; 0; 0;  0; 0; 1; 0;  0; 0; 0; 1].
Definition count16 : list Z :=
  [1; 2; 3; 4;  5; 6; 7; 8;  9; 10; 11; 12;  13; 14; 15; 16].
Definition zeros16 : list Z := replicate 16 0.

(** ** The bus (lines 8-24, 69, 187) *)

Definition MATRIX_ACCEL_BASE : Z := 67109888.   (* 0x04000400 *)
Definition TIMER_BASE : Z := 4280295424.        (* 0xFF202000 *)

Definition A_OFFSET : Z := 0.
Definition B_OFFSET : Z := 16.
Definition SUM_OFFSET : Z := 32.
Definition DIFF_OFFSET : Z := 48.
Definition PROD_OFFSET : Z := 64.
Definition CONTROL_OFFSET : Z := 80.
Definition STATUS_OFFSET : Z := 81.

(** Address of [base[i]] for [base] a pointer to [uint32_t]. *)
Definition word_at (base i : Z) : Z := base + 4 * i.

(** A volatile access is an event: the program hands the device a word, or
    asks it for one. *)
Variant busE : Type -> Type :=
| Store (addr v : Z) : busE unit
| Load (addr : Z) : busE Z.

Notation "x <- t ;; k" := (ITree.bind t (fun x => k))
  (at level 100, t at next level, right associativity, only parsing).
Notation "t ;;; k" := (ITree.bind t (fun _ => k))
  (at level 100, right associativity, only parsing).

Definition store (addr v : Z) : itree busE unit := ITree.trigger (Store addr v).
Definition load (addr : Z) : itree busE Z := ITree.trigger (Load addr).

(** [for (i = lo; i < lo + n; i++) s = body i s] with a body that uses the
    bus. *)
Fixpoint for_loopM {S : Type} (lo n : nat) (body : nat -> S -> itree busE S)
    (s : S) : itree busE S :=
  match n with
  | O => Ret s
  | Datatypes.S n' => s' <- body lo s ;; for_loopM (Datatypes.S lo) n' body s'
  end.

(** ** The accelerator driver (lines 66-116) *)

(** Steps 1 and 2: one operand into the sixteen registers from [off]. *)
Definition write_operand (off : Z) (M : list Z) : itree busE unit :=
  for_loopM 0 16
    (fun i _ =>
       store (word_at MATRIX_ACCEL_BASE (off + Z.of_nat i)) (to_uint32 (elt M i)))
    tt.

(** Step 4: [while ((accel_base[STATUS_OFFSET] & 0x1) == 0) { }]. *)
Definition poll_status : itree busE unit :=
  ITree.iter
    (fun _ : unit =>
       status <- load (word_at MATRIX_ACCEL_BASE STATUS_OFFSET) ;;
       if uand32 status 1 =? 0 then Ret (inl tt) else Ret (inr tt))
    tt.

(** Step 5: sixteen result registers from [off] into a buffer. *)
Definition read_result (off : Z) (buf : list Z) : itree busE (list Z) :=
  for_loopM 0 16
    (fun i buf =>
       w <- load (word_at MATRIX_ACCEL_BASE (off + Z.of_nat i)) ;;
       Ret (<[ i := to_int32 w ]> buf))
    buf.

Definition hardware_matrix_operations
    (A B HW_Sum HW_Diff HW_Prod : list Z) : itree busE (list Z * list Z * list Z) :=
  write_operand A_OFFSET A ;;;
  write_operand B_OFFSET B ;;;
  store (word_at MATRIX_ACCEL_BASE CONTROL_OFFSET) 1 ;;;
  poll_status ;;;
  HW_Sum <- read_result SUM_OFFSET HW_Sum ;;
  HW_Diff <- read_result DIFF_OFFSET HW_Diff ;;
  HW_Prod <- read_result PROD_OFFSET HW_Prod ;;
  Ret (HW_Sum, HW_Diff, HW_Prod).

(** ** Timing and the speedup in [main] (lines 186-214, 285) *)

(** Lines 191-193 and 205-207: period low, period high, start. *)
Definition timer_start : itree busE unit :=
  store (word_at TIMER_BASE 2) 65535 ;;;
  store (word_at TIMER_BASE 3) 65535 ;;;
  store (word_at TIMER_BASE 1) 4.

(** [last_count] of lines 199 and 213 from the two words read. *)
Definition count_of (hi lo : Z) : Z := uor32 (ushl32 hi 16) lo.

(** Lines 197-200 and 211-214: stop, snapshot, read the count, subtract.
    The left operand of [|] is read first. *)
Definition timer_stop_and_read : itree busE Z :=
  store (word_at TIMER_BASE 1) 8 ;;;
  store (word_at TIMER_BASE 4) 1 ;;;
  hi <- load (word_at TIMER_BASE 5) ;;
  lo <- load (word_at TIMER_BASE 4) ;;
  let last_count := count_of hi lo in
  Ret (usub32 4294967295 last_count).

(** Line 285: [int speedup = (sw_cycles / hw_cycles);]. *)
Definition speedup_of (sw_cycles hw_cycles : Z) : option Z :=
  to_int32 <$> udiv32 sw_cycles hw_cycles.

Record report : Type := Report {
  sw_results : list Z * list Z * list Z;
  hw_results : list Z * list Z * list Z;
  sw_cycles : Z;
  hw_cycles : Z;
  speedup : option Z
}.

(** One round of the [while (1)] loop of [main], from the timer set-up to
    the speedup, without the console input and output.  The result arrays
    of [main] are not initialised: their contents on entry are arguments. *)
Definition main_round (A B : list Z) (SW0 HW0 : list Z * list Z * list Z)
  : itree busE report :=
  let '(SW_Sum, SW_Diff, SW_Prod) := SW0 in
  let '(HW_Sum, HW_Diff, HW_Prod) := HW0 in
  timer_start ;;;
  let sw := software_matrix_operations A B SW_Sum SW_Diff SW_Prod in
  sw_cycles <- timer_stop_and_read ;;
  timer_start ;;;
  hw <- hardware_matrix_operations A B HW_Sum HW_Diff HW_Prod ;;
  hw_cycles <- timer_stop_and_read ;;
  Ret (Report sw hw sw_cycles hw_cycles (speedup_of sw_cycles hw_cycles)).

(** ** Observing a program on a device *)

(** A device: a state, changed by stores and consulted by loads. *)
Record device : Type := Device {
  dstate : Type;
  dev_store : Z -> Z -> dstate -> dstate;
  dev_load : Z -> dstate -> Z * dstate
}.

(** What the bus carried. *)
Inductive access : Type :=
| Wr (addr v : Z)
| Rd (addr v : Z).

(** One event served by the device; the bus is 32 bits wide, so a load
    delivers a [uint32_t]. *)
Definition serve (D : device) {X : Type} (e : busE X) (d : dstate D)
  : X * dstate D * access :=
  match e in busE X return X * dstate D * access with
  | Store a v => (tt, dev_store D a v d, Wr a v)
  | Load a =>
      let '(v, d') := dev_load D a d in
      (to_uint32 v, d', Rd a (to_uint32 v))
  end.

(** The end of a bounded observation: the program returned [r], leaving
    the device in [d] and [fuel] steps unused, or it was still running. *)
Inductive outcome (R St : Type) : Type :=
| Returned (r : R) (d : St) (fuel : nat)
| Running.
Arguments Returned {R St} r d fuel.
Arguments Running {R St}.

(** [run D fuel t d]: the accesses of the first [fuel] steps of [t] on the
    device [D] started in [d], and how the observation ended.  Each bus
    access and each loop back-edge is one step. *)
Fixpoint run (D : device) {R : Type} (fuel : nat) (t : itree busE R)
    (d : dstate D) : list access * outcome R (dstate D) :=
  match observe t with
  | RetF r => ([], Returned r d fuel)
  | TauF t' =>
      match fuel with
      | O => ([], Running)
      | Datatypes.S fuel' => run D fuel' t' d
      end
  | VisF e k =>
      match fuel with
      | O => ([], Running)
      | Datatypes.S fuel' =>
          let '(x, d', a) := serve D e d in
          let '(tr, o) := run D fuel' (k x) d' in
          (a :: tr, o)
      end
  end.

Definition returned {R St : Type} (o : outcome R St) : Prop :=
  match o with Returned _ _ _ => True | Running => False end.

Definition result_of {R St : Type} (o : outcome R St) : option R :=
  match o with Returned r _ _ => Some r | Running => None end.

(** ** The accelerator peripheral *)

(** The value of a 16-bit pattern read as two's complement. *)
Definition signed16 (w : Z) : Z :=
  let u := w mod 2 ^ 16 in if u <? 2 ^ 15 then u else u - 2 ^ 16.

(** The register file: the two operand regions hold the low 16 bits of
    what was stored, the three result regions hold 32-bit words, and
    [busy] is [None] before the start and [Some n] when the done bit will
    be set after [n] more reads of the status register. *)
Record accel : Type := Accel {
  opA : list Z;
  opB : list Z;
  r_sum : list Z;
  r_diff : list Z;
  r_prod : list Z;
  busy : option nat
}.

(** Register number of an address in the peripheral's window, and the
    sixteen register numbers from [off]. *)
Definition reg_of (addr : Z) : Z := (addr - MATRIX_ACCEL_BASE) / 4.

Definition in_region (off r : Z) : bool := (off <=? r) && (r <? off + 16).

(** Modelled from the spec: the accelerator peripheral, whose hardware
    description ([mat_mul_sub_add_all_parallel_16bit.sv]) is not among the
    sources.  A store to an operand register keeps the low 16 bits; a
    store to the control register with bit 0 set fills the three result
    regions with A+B, A-B and the matrix product of the operands read as
    signed 16-bit values, and raises the done bit after [latency] reads of
    the status register. *)
Definition accel_store (latency : nat) (addr v : Z) (s : accel) : accel :=
  let r := reg_of addr in
  if in_region A_OFFSET r then
    Accel (<[ Z.to_nat (r - A_OFFSET) := v mod 2 ^ 16 ]> (opA s)) (opB s)
          (r_sum s) (r_diff s) (r_prod s) (busy s)
  else if in_region B_OFFSET r then
    Accel (opA s) (<[ Z.to_nat (r - B_OFFSET) := v mod 2 ^ 16 ]> (opB s))
          (r_sum s) (r_diff s) (r_prod s) (busy s)
  else if (r =? CONTROL_OFFSET) && Z.testbit v 0 then
    let a := map signed16 (opA s) in
    let b := map signed16 (opB s) in
    Accel (opA s) (opB s)
          (map to_uint32 (matrix_sum a b))
          (map to_uint32 (matrix_diff a b))
          (map to_uint32 (matrix_product a b))
          (Some latency)
  else s.

(** Modelled from the spec: reads of the result regions and of the status
    register of the peripheral; bit 0 of the status is the done flag. *)
Definition accel_load (addr : Z) (s : accel) : Z * accel :=
  let r := reg_of addr in
  if in_region SUM_OFFSET r then (elt (r_sum s) (Z.to_nat (r - SUM_OFFSET)), s)
  else if in_region DIFF_OFFSET r then (elt (r_diff s) (Z.to_nat (r - DIFF_OFFSET)), s)
  else if in_region PROD_OFFSET r then (elt (r_prod s) (Z.to_nat (r - PROD_OFFSET)), s)
  else if r =? STATUS_OFFSET then
    match busy s with
    | None => (0, s)
    | Some O => (1, s)
    | Some (Datatypes.S n) =>
        (0, Accel (opA s) (opB s) (r_sum s) (r_diff s) (r_prod s) (Some n))
    end
  else (0, s).

(** Modelled from the spec: the peripheral as a device on the bus, from
    the register map (operands at 0..31, results at 32..79, control at 80,
    status at 81). *)
Definition accel_device (latency : nat) : device :=
  Device accel (accel_store latency) accel_load.

(** The two operand regions have sixteen registers each. *)
Definition accel_sized (s : accel) : Prop :=
  length (opA s) = 16%nat /\ length (opB s) = 16%nat.

(** The peripheral after reset. *)
Definition accel_reset : accel :=
  Accel zeros16 zeros16 zeros16 zeros16 zeros16 None.

(** A device on which every load delivers 0: its status register never
    has the done bit set. *)
Definition silent_device : device :=
  Device unit (fun _ _ s => s) (fun _ s => (0, s)).

(** An address in the window of the accelerator. *)
Definition in_accel (addr : Z) : bool :=
  (MATRIX_ACCEL_BASE <=? addr) && (addr <? MATRIX_ACCEL_BASE + 4 * 82).

(** The accelerator next to a timer whose two count registers read the
    halves of [count] whenever they are loaded. *)
Definition board (latency : nat) (count : Z) : device :=
  Device accel
    (fun addr v s => if in_accel addr then accel_store latency addr v s else s)
    (fun addr s =>
       if in_accel addr then accel_load addr s
       else if addr =? word_at TIMER_BASE 4 then (count mod 2 ^ 16, s)
       else if addr =? word_at TIMER_BASE 5 then (count / 2 ^ 16, s)
       else (0, s)).

(** ** Runs in sequence, and the traces of the driver *)

(** The observation [x], continued by [f] on the result, the device state
    and the fuel that [x] left. *)
Definition and_then {R S St : Type} (x : list access * outcome R St)
    (f : R -> St -> nat -> list access * outcome S St)
  : list access * outcome S St :=
  match x with
  | (tr, Returned r d m) => let '(tr', o) := f r d m in (tr ++ tr', o)
  | (tr, Running) => (tr, Running)
  end.

(** The device after a list of stores, and the words it delivers to a
    list of loads. *)
Definition dev_stores (D : device) (ws : list (Z * Z)) (d : dstate D) : dstate D :=
  fold_left (fun d aw => dev_store D (fst aw) (snd aw) d) ws d.

Fixpoint dev_loads (D : device) (addrs : list Z) (d : dstate D)
  : list Z * dstate D :=
  match addrs with
  | [] => ([], d)
  | a :: addrs' =>
      let '(v, d') := dev_load D a d in
      let '(vs, d'') := dev_loads D addrs' d' in
      (to_uint32 v :: vs, d'')
  end.

(** Addresses of the registers of the accelerator. *)
Definition accel_reg (off : Z) (i : nat) : Z :=
  word_at MATRIX_ACCEL_BASE (off + Z.of_nat i).
Definition CONTROL_REG : Z := word_at MATRIX_ACCEL_BASE CONTROL_OFFSET.
Definition STATUS_REG : Z := word_at MATRIX_ACCEL_BASE STATUS_OFFSET.

Definition region (off : Z) : list Z := map (accel_reg off) (seq 0 16).

(** An address in one of the three result regions. *)
Definition is_result_reg (addr : Z) : bool :=
  (accel_reg SUM_OFFSET 0 <=? addr) && (addr <? CONTROL_REG).

(** The accesses of the steps of the driver. *)
Definition operand_stores (off : Z) (M : list Z) : list (Z * Z) :=
  map (fun i => (accel_reg off i, to_uint32 (elt M i))) (seq 0 16).
Definition operand_writes (off : Z) (M : list Z) : list access :=
  map (fun aw => Wr (fst aw) (snd aw)) (operand_stores off M).
Definition status_reads (ws : list Z) : list access := map (Rd STATUS_REG) ws.
Definition result_reads (off : Z) (ws : list Z) : list access :=
  map (fun i => Rd (accel_reg off i) (elt ws i)) (seq 0 16).

(** Bit 0 of a status word. *)
Definition done_bit (w : Z) : Z := Z.land w 1.

(** Steps 1 to 3 as the bus sees them: the stores of [A], the stores of
    [B], the store of 1 to the control register. *)
Definition start_writes (A B : list Z) : list access :=
  operand_writes A_OFFSET A ++ operand_writes B_OFFSET B ++ [Wr CONTROL_REG 1].

(** A whole call of the driver as the bus sees it: steps 1 to 3, the
    status words [polls] with the done bit clear, the status word [last]
    with the done bit set, and the loads of the three result regions. *)
Definition protocol_trace (A B polls : list Z) (last : Z) (s df p : list Z)
  : list access :=
  start_writes A B ++
  status_reads polls ++ [Rd STATUS_REG last] ++
  result_reads SUM_OFFSET s ++ result_reads DIFF_OFFSET df ++
  result_reads PROD_OFFSET p.

(** A buffer of sixteen cells filled from sixteen words read. *)
Definition decoded (ws : list Z) : list Z := map to_int32 ws.

(** The buffer [buf] after the read loop has stored the words [ws]. *)
Definition filled (buf ws : list Z) : list Z :=
  fold_left (fun b iw => <[ fst iw := to_int32 (snd iw) ]> b) (zip (seq 0 16) ws) buf.

(** The observation of a program without loops that makes the accesses
    [tr], returns [r] and leaves the device in [d]: with fuel [n] the
    first [n] accesses are seen. *)
Definition straight {R St : Type} (tr : list access) (r : R) (d : St) (n : nat)
  : list access * outcome R St :=
  (firstn n tr,
   if (length tr <=? n)%nat then Returned r d (n - length tr) else Running).

(** The device after steps 1 to 3 of the driver. *)
Definition started (D : device) (A B : list Z) (d : dstate D) : dstate D :=
  dev_store D CONTROL_REG 1
    (dev_stores D (operand_stores B_OFFSET B)
       (dev_stores D (operand_stores A_OFFSET A) d)).

(** Step 5 on the device [d] with fuel [n]. *)
Definition read_stage (D : device) (bufs : list Z * list Z * list Z)
    (d : dstate D) (n : nat)
  : list access * outcome (list Z * list Z * list Z) (dstate D) :=
  let '(HW_Sum, HW_Diff, HW_Prod) := bufs in
  let '(s, d1) := dev_loads D (region SUM_OFFSET) d in
  let '(df, d2) := dev_loads D (region DIFF_OFFSET) d1 in
  let '(p, d3) := dev_loads D (region PROD_OFFSET) d2 in
  straight
    (result_reads SUM_OFFSET s ++ result_reads DIFF_OFFSET df ++
     result_reads PROD_OFFSET p)
    (filled HW_Sum s, filled HW_Diff df, filled HW_Prod p) d3 n.

(** Accesses that are no load from a result region. *)
Definition before_results (a : access) : Prop :=
  match a with
  | Wr _ _ => True
  | Rd addr _ => is_result_reg addr = false
  end.

(** Sample operands with negative elements and both ends of the safe
    range. *)
Definition sample_A : list Z :=
  [-1; 2; -3; 4;  -5; 6; -7; 8;  -23170; 23170; 0; 1;  2; 3; 4; -5].
Definition sample_B : list Z :=
  [7; -8; 9; 10;  -23170; -23170; 23170; 1;  0; 5; -6; 3;  100; -200; 300; -400].

(** Cell by cell on two explicit lists. *)
Ltac cellwise tac :=
  repeat match goal with
         | |- _ :: _ = _ :: _ => apply (f_equal2 cons); [tac|]
         | |- [] = [] => reflexivity
         end.

(** ** Transposition, and the traces of [main] *)

(** The transpose of a row-major 4x4 matrix. *)
Definition transpose (M : list Z) : list Z :=
  flat_map (fun i => map (fun j => elt M (j * 4 + i)) (seq 0 4)) (seq 0 4).

(** An address of one of the thirty-two operand registers. *)
Definition is_operand_reg (addr : Z) : bool :=
  (accel_reg A_OFFSET 0 <=? addr) && (addr <? accel_reg SUM_OFFSET 0).

(** What the driver may do on the bus: store a 32-bit word to an operand
    register or to the control register, load from the status register or
    from a result register. *)
Definition driver_access (a : access) : Prop :=
  match a with
  | Wr addr v => (is_operand_reg addr = true \/ addr = CONTROL_REG) /\ in_uint32 v
  | Rd addr _ => addr = STATUS_REG \/ is_result_reg addr = true
  end.

(** A bus on which every load delivers the word [w]. *)
Definition constant_word (w : Z) : device :=
  Device unit (fun _ _ s => s) (fun _ s => (w, s)).

(** The address of an access. *)
Definition access_addr (a : access) : Z :=
  match a with Wr addr _ => addr | Rd addr _ => addr end.

(** Stores and loads among the accesses of a trace. *)
Definition is_store (a : access) : bool :=
  match a with Wr _ _ => true | Rd _ _ => false end.
Definition stores (tr : list access) : list access := List.filter is_store tr.
Definition loads (tr : list access) : list access :=
  List.filter (fun a => negb (is_store a)) tr.

(** A 32-bit word read as two's complement. *)
Definition signed32 (w : Z) : Z := if w <? 2 ^ 31 then w else w - 2 ^ 32.

(** The accesses of [timer_start] and of [timer_stop_and_read]. *)
Definition timer_start_trace : list access :=
  [Wr (word_at TIMER_BASE 2) 65535; Wr (word_at TIMER_BASE 3) 65535;
   Wr (word_at TIMER_BASE 1) 4].
Definition timer_stop_trace (hi lo : Z) : list access :=
  [Wr (word_at TIMER_BASE 1) 8; Wr (word_at TIMER_BASE 4) 1;
   Rd (word_at TIMER_BASE 5) hi; Rd (word_at TIMER_BASE 4) lo].

(** The device after [timer_start]; after the two stores of
    [timer_stop_and_read]; the two count words it then delivers; and the
    device after each of the two loads. *)
Definition timer_started (D : device) (d : dstate D) : dstate D :=
  dev_store D (word_at TIMER_BASE 1) 4
    (dev_store D (word_at TIMER_BASE 3) 65535
       (dev_store D (word_at TIMER_BASE 2) 65535 d)).
Definition stopped (D : device) (d : dstate D) : dstate D :=
  dev_store D (word_at TIMER_BASE 4) 1 (dev_store D (word_at TIMER_BASE 1) 8 d).
Definition stop_hi (D : device) (d : dstate D) : Z :=
  to_uint32 (fst (dev_load D (word_at TIMER_BASE 5) (stopped D d))).
Definition stop_mid (D : device) (d : dstate D) : dstate D :=
  snd (dev_load D (word_at TIMER_BASE 5) (stopped D d)).
Definition stop_lo (D : device) (d : dstate D) : Z :=
  to_uint32 (fst (dev_load D (word_at TIMER_BASE 4) (stop_mid D d))).
Definition stop_end (D : device) (d : dstate D) : dstate D :=
  snd (dev_load D (word_at TIMER_BASE 4) (stop_mid D d)).

(** The cycle count computed from the two words read. *)
Definition cycles_of (hi lo : Z) : Z := usub32 4294967295 (count_of hi lo).

(** A whole round of [main] as the bus sees it. *)
Definition round_trace (A B : list Z) (hi1 lo1 : Z) (polls : list Z) (last : Z)
    (s df p : list Z) (hi2 lo2 : Z) : list access :=
  timer_start_trace ++ timer_stop_trace hi1 lo1 ++
  timer_start_trace ++ protocol_trace A B polls last s df p ++
  timer_stop_trace hi2 lo2.

(** * Properties *)

(** ** Integer conversions *)

Lemma to_int32_id (z : Z) : in_int32 z -> to_int32 z = z.
Proof.
  unfold in_int32, to_int32. intros Hz.
  rewrite Z.mod_small by lia. lia.
Qed.

Lemma to_int32_range (z : Z) : in_int32 (to_int32 z).
Proof.
  unfold in_int32, to_int32.
  pose proof (Z.mod_pos_bound (z + 2 ^ 31) (2 ^ 32) ltac:(lia)). lia.
Qed.

Lemma to_uint32_range (z : Z) : in_uint32 (to_uint32 z).
Proof.
  unfold in_uint32, to_uint32.
  pose proof (Z.mod_pos_bound z (2 ^ 32) ltac:(lia)). lia.
Qed.

Lemma to_int32_to_uint32 (z : Z) : to_int32 (to_uint32 z) = to_int32 z.
Proof.
  unfold to_int32, to_uint32.
  rewrite Zplus_mod_idemp_l. reflexivity.
Qed.

Lemma int16_in_int32 (z : Z) : in_int16 z -> in_int32 z.
Proof. unfold in_int16, in_int32. lia. Qed.

Lemma safe_in_int16 (z : Z) : safe_elt z -> in_int16 z.
Proof. unfold safe_elt, in_int16, SAFE_INPUT_MAX. lia. Qed.

Lemma safe_matrix_int16 (M : list Z) : safe_matrix M -> int16_matrix M.
Proof.
  intros [Hlen HM]. split; [exact Hlen|].
  eapply Forall_impl; [exact HM|]. exact safe_in_int16.
Qed.

Lemma safe_product_bound (a b : Z) :
  safe_elt a -> safe_elt b -> -536848900 <= a * b <= 536848900.
Proof. unfold safe_elt, SAFE_INPUT_MAX. nia. Qed.

Lemma safe_matrixb_spec (M : list Z) : safe_matrixb M = true -> safe_matrix M.
Proof.
  unfold safe_matrixb, safe_matrix. rewrite andb_true_iff, forallb_forall.
  intros [Hlen Hall]. split.
  - apply Nat.eqb_eq, Hlen.
  - apply List.Forall_forall. intros x Hx. specialize (Hall x Hx).
    unfold safe_elt. lia.
Qed.

(** ** Arrays of sixteen elements *)

Lemma elt_lookup (M : list Z) (i : nat) (x : Z) : M !! i = Some x -> elt M i = x.
Proof. unfold elt. intros ->. reflexivity. Qed.

Lemma elt_Forall (P : Z -> Prop) (M : list Z) (i : nat) :
  Forall P M -> (i < length M)%nat -> P (elt M i).
Proof.
  intros HM Hi. destruct (lookup_lt_is_Some_2 M i Hi) as [x Hx].
  rewrite (elt_lookup _ _ _ Hx). exact (Forall_lookup_1 _ _ _ _ HM Hx).
Qed.

(** A list of length 16 is its sixteen elements. *)
Lemma length16_elts (M : list Z) :
  length M = 16%nat -> M = map (elt M) (seq 0 16).
Proof.
  intros H.
  do 16 (destruct M as [|? M]; [discriminate H|]).
  destruct M; [reflexivity|discriminate H].
Qed.

(** Filling the sixteen cells of a buffer in order leaves exactly the
    values written. *)
Lemma fill16 (f : nat -> Z) (buf : list Z) :
  length buf = 16%nat ->
  for_loop 0 16 (fun i buf => <[ i := f i ]> buf) buf = map f (seq 0 16).
Proof.
  intros H.
  do 16 (destruct buf as [|? buf]; [discriminate H|]).
  destruct buf; [reflexivity|discriminate H].
Qed.

Lemma fill4x4 (f : nat -> nat -> Z) (buf : list Z) :
  length buf = 16%nat ->
  for_loop 0 4
    (fun i buf => for_loop 0 4 (fun j buf => <[ (i * 4 + j)%nat := f i j ]> buf) buf)
    buf
  = flat_map (fun i => map (fun j => f i j) (seq 0 4)) (seq 0 4).
Proof.
  intros H.
  do 16 (destruct buf as [|? buf]; [discriminate H|]).
  destruct buf; [reflexivity|discriminate H].
Qed.

Lemma elt_map_seq16 (f : nat -> Z) (i : nat) :
  (i < 16)%nat -> elt (map f (seq 0 16)) i = f i.
Proof.
  intros Hi. do 16 (destruct i as [|i]; [reflexivity|]). lia.
Qed.

Lemma elt_flat4x4 (f : nat -> nat -> Z) (i j : nat) :
  (i < 4)%nat -> (j < 4)%nat ->
  elt (flat_map (fun i => map (fun j => f i j) (seq 0 4)) (seq 0 4)) (i * 4 + j) = f i j.
Proof.
  intros Hi Hj.
  do 4 (destruct i as [|i]; [do 4 (destruct j as [|j]; [reflexivity|]); lia|]). lia.
Qed.

(** ** The software engine *)

Lemma for_loop_last {S : Type} (body : nat -> S -> S) (n lo : nat) (s : S) :
  for_loop lo (Datatypes.S n) body s = body (lo + n)%nat (for_loop lo n body s).
Proof.
  revert lo s. induction n as [|n IH]; intros lo s.
  - simpl. rewrite Nat.add_0_r. reflexivity.
  - change (for_loop lo (Datatypes.S (Datatypes.S n)) body s)
      with (for_loop (Datatypes.S lo) (Datatypes.S n) body (body lo s)).
    rewrite IH. simpl. rewrite Nat.add_succ_r. reflexivity.
Qed.

Lemma dot_acc_0 (A B : list Z) (i j : nat) : dot_acc A B i j 0 = 0.
Proof. reflexivity. Qed.

Lemma dot_acc_succ (A B : list Z) (i j n : nat) :
  dot_acc A B i j (Datatypes.S n) =
  add32 (dot_acc A B i j n)
        (mul32 (to_int32 (elt A (i * 4 + n))) (to_int32 (elt B (n * 4 + j)))).
Proof. unfold dot_acc. rewrite for_loop_last. reflexivity. Qed.

Lemma safe_elt_at (M : list Z) (i : nat) :
  safe_matrix M -> (i < 16)%nat -> safe_elt (elt M i).
Proof. intros [Hlen HM] Hi. apply elt_Forall; [exact HM|lia]. Qed.

Lemma int16_elt_at (M : list Z) (i : nat) :
  int16_matrix M -> (i < 16)%nat -> in_int16 (elt M i).
Proof. intros [Hlen HM] Hi. apply elt_Forall; [exact HM|lia]. Qed.

(** A widened element is the element. *)
Lemma widen_int16 (x : Z) : in_int16 x -> to_int32 x = x.
Proof. intros Hx. apply to_int32_id, int16_in_int32, Hx. Qed.

Lemma widen_safe (M : list Z) (i : nat) :
  safe_matrix M -> (i < 16)%nat -> to_int32 (elt M i) = elt M i.
Proof.
  intros HM Hi. apply widen_int16, safe_in_int16, safe_elt_at; assumption.
Qed.

(** One product of two widened safe elements is exact and small. *)
Lemma mul32_safe (A B : list Z) (p q : nat) :
  safe_matrix A -> safe_matrix B -> (p < 16)%nat -> (q < 16)%nat ->
  mul32 (to_int32 (elt A p)) (to_int32 (elt B q)) = elt A p * elt B q /\
  -536848900 <= elt A p * elt B q <= 536848900.
Proof.
  intros HA HB Hp Hq.
  pose proof (safe_product_bound _ _ (safe_elt_at A p HA Hp) (safe_elt_at B q HB Hq)) as Hb.
  rewrite (widen_safe A p HA Hp), (widen_safe B q HB Hq).
  split; [|exact Hb]. unfold mul32. apply to_int32_id. unfold in_int32. lia.
Qed.

(** The accumulator after [n] rounds is the exact partial sum, and at most
    [n] products large. *)
Lemma dot_acc_exact (A B : list Z) (i j n : nat) :
  safe_matrix A -> safe_matrix B -> (i < 4)%nat -> (j < 4)%nat -> (n <= 4)%nat ->
  dot_acc A B i j n = sigma n (fun k => elt A (i * 4 + k) * elt B (k * 4 + j)) /\
  - (Z.of_nat n * 536848900) <= dot_acc A B i j n <= Z.of_nat n * 536848900.
Proof.
  intros HA HB Hi Hj. induction n as [|n IH]; intros Hn.
  - rewrite dot_acc_0. simpl. lia.
  - destruct (IH ltac:(lia)) as [Heq Hbound].
    destruct (mul32_safe A B (i * 4 + n) (n * 4 + j) HA HB ltac:(lia) ltac:(lia))
      as [Hmul Hprod].
    rewrite dot_acc_succ, Hmul. unfold add32. rewrite to_int32_id.
    + split; [simpl; rewrite Heq; reflexivity|lia].
    + unfold in_int32. lia.
Qed.

Lemma sw_sum_loop_cells (A B buf : list Z) :
  length buf = 16%nat ->
  sw_sum_loop A B buf =
  map (fun i => add32 (to_int32 (elt A i)) (to_int32 (elt B i))) (seq 0 16).
Proof. intros H. unfold sw_sum_loop. apply (fill16 _ buf H). Qed.

Lemma sw_diff_loop_cells (A B buf : list Z) :
  length buf = 16%nat ->
  sw_diff_loop A B buf =
  map (fun i => sub32 (to_int32 (elt A i)) (to_int32 (elt B i))) (seq 0 16).
Proof. intros H. unfold sw_diff_loop. apply (fill16 _ buf H). Qed.

Lemma sw_prod_loop_cells (A B buf : list Z) :
  length buf = 16%nat ->
  sw_prod_loop A B buf =
  flat_map (fun i => map (fun j => dot_acc A B i j 4) (seq 0 4)) (seq 0 4).
Proof.
  intros H. unfold sw_prod_loop.
  apply (fill4x4 (fun i j => dot_acc A B i j 4) buf H).
Qed.

(** On widened 16-bit operands the 32-bit addition and subtraction are
    exact. *)
Lemma add32_int16 (a b : Z) :
  in_int16 a -> in_int16 b -> add32 (to_int32 a) (to_int32 b) = a + b.
Proof.
  intros Ha Hb. rewrite !widen_int16 by assumption.
  unfold add32. apply to_int32_id. unfold in_int16, in_int32 in *. lia.
Qed.

Lemma sub32_int16 (a b : Z) :
  in_int16 a -> in_int16 b -> sub32 (to_int32 a) (to_int32 b) = a - b.
Proof.
  intros Ha Hb. rewrite !widen_int16 by assumption.
  unfold sub32. apply to_int32_id. unfold in_int16, in_int32 in *. lia.
Qed.

Lemma sigma_ext (n : nat) (f g : nat -> Z) :
  (forall k, (k < n)%nat -> f k = g k) -> sigma n f = sigma n g.
Proof.
  induction n as [|n IH]; intros H; simpl; [reflexivity|].
  rewrite IH by (intros k Hk; apply H; lia). rewrite H by lia. reflexivity.
Qed.

Lemma dot_acc_cell (A B : list Z) (i j : nat) :
  safe_matrix A -> safe_matrix B -> (i < 4)%nat -> (j < 4)%nat ->
  dot_acc A B i j 4 = matrix_cell A B i j.
Proof.
  intros HA HB Hi Hj.
  exact (proj1 (dot_acc_exact A B i j 4 HA HB Hi Hj ltac:(lia))).
Qed.

Lemma sw_prod_is_matrix_product (A B buf : list Z) :
  safe_matrix A -> safe_matrix B -> length buf = 16%nat ->
  sw_prod_loop A B buf = matrix_product A B.
Proof.
  intros HA HB H. rewrite (sw_prod_loop_cells A B buf H). unfold matrix_product.
  cbn [flat_map map seq app].
  cellwise ltac:(apply dot_acc_cell; [assumption|assumption|lia|lia]).
Qed.

Lemma sw_sum_is_matrix_sum (A B buf : list Z) :
  int16_matrix A -> int16_matrix B -> length buf = 16%nat ->
  sw_sum_loop A B buf = matrix_sum A B.
Proof.
  intros HA HB H. rewrite (sw_sum_loop_cells A B buf H). unfold matrix_sum.
  apply map_ext_in. intros i Hi. apply in_seq in Hi.
  apply add32_int16; apply int16_elt_at; assumption || lia.
Qed.

Lemma sw_diff_is_matrix_diff (A B buf : list Z) :
  int16_matrix A -> int16_matrix B -> length buf = 16%nat ->
  sw_diff_loop A B buf = matrix_diff A B.
Proof.
  intros HA HB H. rewrite (sw_diff_loop_cells A B buf H). unfold matrix_diff.
  apply map_ext_in. intros i Hi. apply in_seq in Hi.
  apply sub32_int16; apply int16_elt_at; assumption || lia.
Qed.

Lemma matrix_product_identity_r (A : list Z) :
  length A = 16%nat -> matrix_product A identity4 = A.
Proof.
  intros H.
  do 16 (destruct A as [|? A]; [discriminate H|]).
  destruct A; [|discriminate H].
  unfold matrix_product, matrix_cell.
  cbn [flat_map map seq app sigma elt lookup list_lookup identity4 default
       from_option Nat.mul Nat.add].
  unfold id. cellwise lia.
Qed.

Lemma matrix_product_identity_l (B : list Z) :
  length B = 16%nat -> matrix_product identity4 B = B.
Proof.
  intros H.
  do 16 (destruct B as [|? B]; [discriminate H|]).
  destruct B; [|discriminate H].
  unfold matrix_product, matrix_cell.
  cbn [flat_map map seq app sigma elt lookup list_lookup identity4 default
       from_option Nat.mul Nat.add].
  unfold id. cellwise lia.
Qed.

(** C2. For operands within the safe input range, the cell of the product
    buffer in row [i] and column [j] is the sum over [k] in 0..3 of the
    products of the widened elements [A[i*4+k]] and [B[k*4+j]]; it is the
    accumulator [sum] after four rounds, which starts at zero and grows by
    one exact product per round; and a product with the 4x4 identity is
    the other operand. *)
Theorem product_matches_matrix_multiplication
    (A B SW_Sum SW_Diff SW_Result : list Z) :
  safe_matrix A -> safe_matrix B -> length SW_Result = 16%nat ->
  let Product := snd (software_matrix_operations A B SW_Sum SW_Diff SW_Result) in
  (forall i j : nat, (i < 4)%nat -> (j < 4)%nat ->
     elt Product (i * 4 + j) =
       sigma 4 (fun k => to_int32 (elt A (i * 4 + k)) * to_int32 (elt B (k * 4 + j))) /\
     elt Product (i * 4 + j) = dot_acc A B i j 4 /\
     dot_acc A B i j 0 = 0 /\
     (forall k : nat, (k < 4)%nat ->
        dot_acc A B i j (Datatypes.S k) =
          dot_acc A B i j k +
          to_int32 (elt A (i * 4 + k)) * to_int32 (elt B (k * 4 + j)))) /\
  (A = identity4 -> Product = B) /\
  (B = identity4 -> Product = A).
Proof.
  intros HA HB Hlen. cbn [software_matrix_operations snd].
  split; [|split].
  - intros i j Hi Hj.
    rewrite (sw_prod_loop_cells A B SW_Result Hlen).
    rewrite (elt_flat4x4 (fun i j => dot_acc A B i j 4) i j Hi Hj).
    split; [|split; [reflexivity|split; [reflexivity|]]].
    + rewrite (dot_acc_cell A B i j HA HB Hi Hj). unfold matrix_cell.
      apply sigma_ext. intros k Hk.
      rewrite (widen_safe A (i * 4 + k) HA), (widen_safe B (k * 4 + j) HB) by lia.
      reflexivity.
    + intros k Hk.
      destruct (dot_acc_exact A B i j (Datatypes.S k) HA HB Hi Hj ltac:(lia)) as [E1 _].
      destruct (dot_acc_exact A B i j k HA HB Hi Hj ltac:(lia)) as [E0 _].
      rewrite E1, E0.
      rewrite (widen_safe A (i * 4 + k) HA), (widen_safe B (k * 4 + j) HB) by lia.
      reflexivity.
  - intros ->. rewrite (sw_prod_is_matrix_product _ _ _ HA HB Hlen).
    apply matrix_product_identity_l, HB.
  - intros ->. rewrite (sw_prod_is_matrix_product _ _ _ HA HB Hlen).
    apply matrix_product_identity_r, HA.
Qed.

Lemma sample_A_safe : safe_matrix sample_A.
Proof. apply safe_matrixb_spec. reflexivity. Defined.

Lemma sample_B_safe : safe_matrix sample_B.
Proof. apply safe_matrixb_spec. reflexivity. Defined.

Lemma product_matches_matrix_multiplication_witness :
  let Product :=
    snd (software_matrix_operations sample_A sample_B zeros16 zeros16 zeros16) in
  (forall i j : nat, (i < 4)%nat -> (j < 4)%nat ->
     elt Product (i * 4 + j) =
       sigma 4 (fun k => to_int32 (elt sample_A (i * 4 + k)) *
                         to_int32 (elt sample_B (k * 4 + j))) /\
     elt Product (i * 4 + j) = dot_acc sample_A sample_B i j 4 /\
     dot_acc sample_A sample_B i j 0 = 0 /\
     (forall k : nat, (k < 4)%nat ->
        dot_acc sample_A sample_B i j (Datatypes.S k) =
          dot_acc sample_A sample_B i j k +
          to_int32 (elt sample_A (i * 4 + k)) * to_int32 (elt sample_B (k * 4 + j)))) /\
  (sample_A = identity4 -> Product = sample_B) /\
  (sample_B = identity4 -> Product = sample_A).
Proof.
  apply (product_matches_matrix_multiplication
           sample_A sample_B zeros16 zeros16 zeros16).
  - exact sample_A_safe.
  - exact sample_B_safe.
  - reflexivity.
Defined.

(** The cells of the sum and difference buffers. *)
Lemma sum_diff_cells (A B SW_Sum SW_Diff : list Z) (i : nat) :
  int16_matrix A -> int16_matrix B ->
  length SW_Sum = 16%nat -> length SW_Diff = 16%nat -> (i < 16)%nat ->
  elt (sw_sum_loop A B SW_Sum) i = elt A i + elt B i /\
  elt (sw_diff_loop A B SW_Diff) i = elt A i - elt B i.
Proof.
  intros HA HB HS HD Hi.
  pose proof (int16_elt_at A i HA Hi) as Ha.
  pose proof (int16_elt_at B i HB Hi) as Hb.
  rewrite (sw_sum_loop_cells A B SW_Sum HS), (sw_diff_loop_cells A B SW_Diff HD).
  rewrite !elt_map_seq16 by exact Hi.
  rewrite (add32_int16 _ _ Ha Hb), (sub32_int16 _ _ Ha Hb). auto.
Qed.

(** C3. For operands of sixteen [int16_t] each and every index [i] below
    16, the sum buffer holds the sum and the difference buffer the
    difference of the two elements, each widened to 32 bits first; the
    widening keeps the value. *)
Theorem sum_diff_of_widened_elements
    (A B SW_Sum SW_Diff SW_Result : list Z) (i : nat) :
  int16_matrix A -> int16_matrix B ->
  length SW_Sum = 16%nat -> length SW_Diff = 16%nat -> (i < 16)%nat ->
  let '(Sum, Diff, _) := software_matrix_operations A B SW_Sum SW_Diff SW_Result in
  elt Sum i = to_int32 (elt A i) + to_int32 (elt B i) /\
  elt Diff i = to_int32 (elt A i) - to_int32 (elt B i) /\
  to_int32 (elt A i) = elt A i /\
  to_int32 (elt B i) = elt B i.
Proof.
  intros HA HB HS HD Hi. cbn [software_matrix_operations].
  destruct (sum_diff_cells A B SW_Sum SW_Diff i HA HB HS HD Hi) as [Hs Hd].
  rewrite (widen_int16 _ (int16_elt_at A i HA Hi)).
  rewrite (widen_int16 _ (int16_elt_at B i HB Hi)). auto.
Qed.

Lemma sample_A_int16 : int16_matrix sample_A.
Proof. exact (safe_matrix_int16 _ sample_A_safe). Defined.

Lemma sample_B_int16 : int16_matrix sample_B.
Proof. exact (safe_matrix_int16 _ sample_B_safe). Defined.

Lemma sum_diff_of_widened_elements_witness :
  let '(Sum, Diff, _) :=
    software_matrix_operations sample_A sample_B zeros16 zeros16 zeros16 in
  elt Sum 8 = to_int32 (elt sample_A 8) + to_int32 (elt sample_B 8) /\
  elt Diff 8 = to_int32 (elt sample_A 8) - to_int32 (elt sample_B 8) /\
  to_int32 (elt sample_A 8) = elt sample_A 8 /\
  to_int32 (elt sample_B 8) = elt sample_B 8.
Proof.
  apply (sum_diff_of_widened_elements sample_A sample_B zeros16 zeros16 zeros16 8).
  - exact sample_A_int16.
  - exact sample_B_int16.
  - reflexivity.
  - reflexivity.
  - lia.
Defined.

(** C4. For operands within the safe input range no operation of the
    engine leaves the [int32_t] range: not the sum or the difference of
    two widened elements, not the product of two widened elements, and not
    the accumulator before or after any of its four additions. *)
Theorem safe_range_has_no_overflow (A B : list Z) :
  safe_matrix A -> safe_matrix B ->
  (forall i : nat, (i < 16)%nat ->
     in_int32 (to_int32 (elt A i) + to_int32 (elt B i)) /\
     in_int32 (to_int32 (elt A i) - to_int32 (elt B i))) /\
  (forall i j k : nat, (i < 4)%nat -> (j < 4)%nat -> (k < 4)%nat ->
     let a := to_int32 (elt A (i * 4 + k)) in
     let b := to_int32 (elt B (k * 4 + j)) in
     in_int32 (a * b) /\
     in_int32 (dot_acc A B i j k) /\
     in_int32 (dot_acc A B i j k + mul32 a b) /\
     dot_acc A B i j (Datatypes.S k) = dot_acc A B i j k + a * b).
Proof.
  intros HA HB. split.
  - intros i Hi.
    pose proof (safe_elt_at A i HA Hi) as Ha.
    pose proof (safe_elt_at B i HB Hi) as Hb.
    rewrite (widen_safe A i HA Hi), (widen_safe B i HB Hi).
    unfold safe_elt, SAFE_INPUT_MAX, in_int32 in *. lia.
  - intros i j k Hi Hj Hk a b. subst a b.
    destruct (mul32_safe A B (i * 4 + k) (k * 4 + j) HA HB ltac:(lia) ltac:(lia))
      as [Hmul Hprod].
    destruct (dot_acc_exact A B i j k HA HB Hi Hj ltac:(lia)) as [E0 B0].
    destruct (dot_acc_exact A B i j (Datatypes.S k) HA HB Hi Hj ltac:(lia)) as [E1 _].
    rewrite Hmul.
    rewrite (widen_safe A (i * 4 + k) HA), (widen_safe B (k * 4 + j) HB) by lia.
    unfold in_int32. repeat split; try lia.
    rewrite E1. cbn [sigma]. rewrite <- E0. reflexivity.
Qed.

Lemma safe_range_has_no_overflow_witness :
  (forall i : nat, (i < 16)%nat ->
     in_int32 (to_int32 (elt sample_A i) + to_int32 (elt sample_B i)) /\
     in_int32 (to_int32 (elt sample_A i) - to_int32 (elt sample_B i))) /\
  (forall i j k : nat, (i < 4)%nat -> (j < 4)%nat -> (k < 4)%nat ->
     let a := to_int32 (elt sample_A (i * 4 + k)) in
     let b := to_int32 (elt sample_B (k * 4 + j)) in
     in_int32 (a * b) /\
     in_int32 (dot_acc sample_A sample_B i j k) /\
     in_int32 (dot_acc sample_A sample_B i j k + mul32 a b) /\
     dot_acc sample_A sample_B i j (Datatypes.S k) =
       dot_acc sample_A sample_B i j k + a * b).
Proof.
  apply (safe_range_has_no_overflow sample_A sample_B).
  - exact sample_A_safe.
  - exact sample_B_safe.
Defined.

(** C5. For operands within the safe input range and every index [i]
    below 16, the element of the sum buffer plus the element of the
    difference buffer is twice the widened element of [A]. *)
Theorem sum_plus_diff_is_twice_A
    (A B SW_Sum SW_Diff SW_Result : list Z) (i : nat) :
  safe_matrix A -> safe_matrix B ->
  length SW_Sum = 16%nat -> length SW_Diff = 16%nat -> (i < 16)%nat ->
  let '(Sum, Diff, _) := software_matrix_operations A B SW_Sum SW_Diff SW_Result in
  elt Sum i + elt Diff i = 2 * to_int32 (elt A i).
Proof.
  intros HA HB HS HD Hi. cbn [software_matrix_operations].
  pose proof (safe_matrix_int16 A HA) as HA16.
  pose proof (safe_matrix_int16 B HB) as HB16.
  destruct (sum_diff_cells A B SW_Sum SW_Diff i HA16 HB16 HS HD Hi) as [Hs Hd].
  rewrite Hs, Hd, (widen_safe A i HA Hi). lia.
Qed.

Lemma sum_plus_diff_is_twice_A_witness :
  let '(Sum, Diff, _) :=
    software_matrix_operations sample_A sample_B zeros16 zeros16 zeros16 in
  elt Sum 9 + elt Diff 9 = 2 * to_int32 (elt sample_A 9).
Proof.
  apply (sum_plus_diff_is_twice_A sample_A sample_B zeros16 zeros16 zeros16 9).
  - exact sample_A_safe.
  - exact sample_B_safe.
  - reflexivity.
  - reflexivity.
  - lia.
Defined.

(** The documented scenario: [A] = 1..16 and [B] the identity. *)
Example software_example :
  software_matrix_operations count16 identity4 zeros16 zeros16 zeros16 =
  ([2; 2; 3; 4;  5; 7; 7; 8;  9; 10; 12; 12;  13; 14; 15; 17],
   [0; 2; 3; 4;  5; 5; 7; 8;  9; 10; 10; 12;  13; 14; 15; 15],
   count16).
Proof. vm_compute. reflexivity. Qed.

(** ** Observations *)

Section Runs.

Context (D : device).

Lemma run_unfold {R : Type} (n : nat) (t : itree busE R) (d : dstate D) :
  run D n t d =
  match observe t with
  | RetF r => ([], Returned r d n)
  | TauF t' =>
      match n with
      | O => ([], Running)
      | Datatypes.S n' => run D n' t' d
      end
  | VisF e k =>
      match n with
      | O => ([], Running)
      | Datatypes.S n' =>
          let '(x, d', a) := serve D e d in
          let '(tr, o) := run D n' (k x) d' in
          (a :: tr, o)
      end
  end.
Proof. destruct n; reflexivity. Qed.

(** [run] sees a program through [observe] only. *)
Lemma run_observe {R : Type} (t u : itree busE R) (n : nat) (d : dstate D) :
  observe t = observe u -> run D n t d = run D n u d.
Proof. intros H. rewrite (run_unfold n t), (run_unfold n u), H. reflexivity. Qed.

Lemma run_ret {R : Type} (r : R) (n : nat) (d : dstate D) :
  run D n (Ret r) d = ([], Returned r d n).
Proof. rewrite run_unfold. reflexivity. Qed.

Lemma run_tau {R : Type} (t : itree busE R) (n : nat) (d : dstate D) :
  run D (Datatypes.S n) (Tau t) d = run D n t d.
Proof. reflexivity. Qed.

Lemma run_vis {R X : Type} (e : busE X) (k : X -> itree busE R) (n : nat)
    (d : dstate D) :
  run D (Datatypes.S n) (Vis e k) d =
  (let '(x, d', a) := serve D e d in
   let '(tr, o) := run D n (k x) d' in (a :: tr, o)).
Proof. reflexivity. Qed.

(** Sequencing: the second program runs on what the first left. *)
Lemma run_bind {R S : Type} (t : itree busE R) (k : R -> itree busE S)
    (n : nat) (d : dstate D) :
  run D n (ITree.bind t k) d =
  and_then (run D n t d) (fun r d' m => run D m (k r) d').
Proof.
  revert t d. induction n as [|n IH]; intros t d;
    rewrite (run_observe _ _ _ _ (observe_bind t k)), (run_unfold _ t);
    destruct (observe t) as [r|t'|X e h]; cbn [and_then].
  - destruct (run D 0 (k r) d). reflexivity.
  - reflexivity.
  - reflexivity.
  - destruct (run D _ (k r) d). reflexivity.
  - rewrite run_tau. apply IH.
  - rewrite run_vis. destruct (serve D e d) as [[x d'] a]. rewrite IH.
    destruct (run D n (h x) d') as [tr [r d'' m|]]; cbn [and_then]; [|reflexivity].
    destruct (run D m (k r) d''). reflexivity.
Qed.

(** More fuel does not change a run that returned. *)
Lemma run_more {R : Type} (t : itree busE R) (n k : nat) (d d' : dstate D)
    (tr : list access) (r : R) (m : nat) :
  run D n t d = (tr, Returned r d' m) ->
  run D (n + k) t d = (tr, Returned r d' (m + k)).
Proof.
  revert t d tr. induction n as [|n IH]; intros t d tr;
    rewrite (run_unfold _ t), (run_unfold (_ + k) t);
    destruct (observe t) as [r0|t'|X e h]; cbn [Nat.add].
  - intros [= <- <- <- <-]. reflexivity.
  - discriminate.
  - discriminate.
  - intros [= <- <- <- <-]. reflexivity.
  - apply IH.
  - destruct (serve D e d) as [[x d1] a].
    destruct (run D n (h x) d1) as [tr1 o1] eqn:E.
    intros [= <- ->]. rewrite (IH _ _ _ E). reflexivity.
Qed.

(** *** Programs without loops *)

Lemma straight_ret {R : Type} (r : R) (n : nat) (d : dstate D) :
  run D n (Ret r) d = straight [] r d n.
Proof.
  rewrite run_ret. unfold straight. cbn [length Nat.leb].
  rewrite firstn_nil, Nat.sub_0_r. reflexivity.
Qed.

Lemma straight_store (a v : Z) (n : nat) (d : dstate D) :
  run D n (store a v) d = straight [Wr a v] tt (dev_store D a v d) n.
Proof.
  destruct n as [|n]; [reflexivity|].
  unfold store, ITree.trigger. rewrite run_vis. cbn [serve].
  rewrite run_ret. unfold straight. cbn [length firstn Nat.leb Nat.sub].
  rewrite firstn_nil, Nat.sub_0_r. reflexivity.
Qed.

Lemma straight_load (a : Z) (n : nat) (d : dstate D) :
  run D n (load a) d =
  straight [Rd a (to_uint32 (fst (dev_load D a d)))]
           (to_uint32 (fst (dev_load D a d))) (snd (dev_load D a d)) n.
Proof.
  destruct n as [|n]; [reflexivity|].
  unfold load, ITree.trigger. rewrite run_vis. cbn [serve].
  destruct (dev_load D a d) as [v d']. cbn [fst snd].
  rewrite run_ret. unfold straight. cbn [length firstn Nat.leb Nat.sub].
  rewrite firstn_nil, Nat.sub_0_r. reflexivity.
Qed.

Lemma straight_bind {R S : Type} (t : itree busE R) (k : R -> itree busE S)
    (d d1 d2 : dstate D) (tr1 tr2 : list access) (r1 : R) (r2 : S) :
  (forall n, run D n t d = straight tr1 r1 d1 n) ->
  (forall n, run D n (k r1) d1 = straight tr2 r2 d2 n) ->
  forall n, run D n (ITree.bind t k) d = straight (tr1 ++ tr2) r2 d2 n.
Proof.
  intros H1 H2 n. rewrite run_bind, H1. unfold straight at 1.
  destruct (Nat.leb_spec (length tr1) n) as [Hle|Hlt]; cbn [and_then].
  - rewrite H2. unfold straight. rewrite length_app, firstn_app.
    destruct (Nat.leb_spec (length tr2) (n - length tr1)) as [Hle2|Hlt2];
      destruct (Nat.leb_spec (length tr1 + length tr2) n); try lia;
      [f_equal; f_equal; lia | reflexivity].
  - unfold straight. rewrite length_app, firstn_app.
    replace (n - length tr1)%nat with 0%nat by lia.
    cbn [firstn]. rewrite app_nil_r.
    destruct (Nat.leb_spec (length tr1 + length tr2) n); [lia|reflexivity].
Qed.

End Runs.

(** ** The steps of the driver *)

Lemma and_then_ext {R S St : Type} (x : list access * outcome R St)
    (f g : R -> St -> nat -> list access * outcome S St) :
  (forall r d m, f r d m = g r d m) -> and_then x f = and_then x g.
Proof.
  intros H. destruct x as [tr [r d m|]]; cbn [and_then]; [|reflexivity].
  rewrite H. reflexivity.
Qed.

Section Driver.

Context (D : device).

(** A run of steps without loops, followed by the rest. *)
Lemma straight_then {R S : Type} (t : itree busE R) (k : R -> itree busE S)
    (d d1 : dstate D) (tr : list access) (r1 : R) :
  (forall n, run D n t d = straight tr r1 d1 n) ->
  forall n, run D n (ITree.bind t k) d =
            and_then (straight tr r1 d1 n) (fun r d' m => run D m (k r) d').
Proof. intros H n. rewrite run_bind, H. reflexivity. Qed.

Lemma straight_prefix {R S T : Type} (t : itree busE R) (k : R -> itree busE S)
    (d d1 d2 : dstate D) (tr1 tr2 : list access) (r1 : R) (r2 : T)
    (f : T -> dstate D -> nat -> list access * outcome S (dstate D)) :
  (forall n, run D n t d = straight tr1 r1 d1 n) ->
  (forall n, run D n (k r1) d1 = and_then (straight tr2 r2 d2 n) f) ->
  forall n, run D n (ITree.bind t k) d = and_then (straight (tr1 ++ tr2) r2 d2 n) f.
Proof.
  intros H1 H2 n. rewrite run_bind, H1. unfold straight at 1.
  destruct (Nat.leb_spec (length tr1) n) as [Hle|Hlt]; cbn [and_then].
  - rewrite H2. unfold straight. rewrite length_app, firstn_app.
    rewrite (firstn_all2 tr1) by lia.
    destruct (Nat.leb_spec (length tr2) (n - length tr1)) as [Hle2|Hlt2];
      destruct (Nat.leb_spec (length tr1 + length tr2) n); try lia;
      cbn [and_then].
    + replace (n - (length tr1 + length tr2))%nat
        with (n - length tr1 - length tr2)%nat by lia.
      destruct (f r2 d2 _) as [tr' o]. rewrite app_assoc. reflexivity.
    + reflexivity.
  - unfold straight. rewrite length_app, firstn_app.
    replace (n - length tr1)%nat with 0%nat by lia.
    cbn [firstn]. rewrite app_nil_r.
    destruct (Nat.leb_spec (length tr1 + length tr2) n); [lia|reflexivity].
Qed.

Lemma straight_store_loop (fa fv : nat -> Z) (c lo : nat) (d : dstate D) (n : nat) :
  run D n (for_loopM lo c (fun i _ => store (fa i) (fv i)) tt) d =
  straight
    (map (fun aw => Wr (fst aw) (snd aw)) (map (fun i => (fa i, fv i)) (seq lo c)))
    tt (dev_stores D (map (fun i => (fa i, fv i)) (seq lo c)) d) n.
Proof.
  revert lo d n. induction c as [|c IH]; intros lo d n.
  - apply straight_ret.
  - cbn [for_loopM seq map].
    apply (straight_bind D (store (fa lo) (fv lo)) _ d
             (dev_store D (fa lo) (fv lo) d) _ [Wr (fa lo) (fv lo)] _ tt tt).
    + intros m. apply straight_store.
    + intros m. apply IH.
Qed.

Lemma straight_write_operand (off : Z) (M : list Z) (d : dstate D) (n : nat) :
  run D n (write_operand off M) d =
  straight (operand_writes off M) tt (dev_stores D (operand_stores off M) d) n.
Proof.
  exact (straight_store_loop (accel_reg off) (fun i => to_uint32 (elt M i)) 16 0 d n).
Qed.

Lemma dev_loads_length (addrs : list Z) (d : dstate D) :
  length (fst (dev_loads D addrs d)) = length addrs.
Proof.
  revert d. induction addrs as [|a addrs IH]; intros d; [reflexivity|].
  cbn [dev_loads]. destruct (dev_load D a d) as [v d'].
  specialize (IH d'). destruct (dev_loads D addrs d') as [vs d''].
  cbn [fst length] in *. rewrite IH. reflexivity.
Qed.

Lemma straight_load_loop (fa : nat -> Z) (c lo : nat) (d : dstate D)
    (buf : list Z) (n : nat) :
  run D n
    (for_loopM lo c
       (fun i buf => w <- load (fa i) ;; Ret (<[ i := to_int32 w ]> buf)) buf) d =
  straight
    (zip_with Rd (map fa (seq lo c)) (fst (dev_loads D (map fa (seq lo c)) d)))
    (fold_left (fun b iw => <[ fst iw := to_int32 (snd iw) ]> b)
       (zip (seq lo c) (fst (dev_loads D (map fa (seq lo c)) d))) buf)
    (snd (dev_loads D (map fa (seq lo c)) d)) n.
Proof.
  revert lo d buf n. induction c as [|c IH]; intros lo d buf n.
  - apply straight_ret.
  - cbn [for_loopM seq map dev_loads].
    pose proof (fun m => straight_load D (fa lo) m d) as Hload.
    destruct (dev_load D (fa lo) d) as [v d'] eqn:Ev. cbn [fst snd] in Hload.
    specialize (IH (Datatypes.S lo) d' (<[ lo := to_int32 (to_uint32 v) ]> buf)).
    destruct (dev_loads D (map fa (seq (Datatypes.S lo) c)) d') as [vs d''] eqn:Evs.
    cbn [fst snd zip_with fold_left] in *.
    refine (straight_bind D _ _ d d' d'' [Rd (fa lo) (to_uint32 v)] _
              (<[ lo := to_int32 (to_uint32 v) ]> buf) _ _ IH n).
    intros m.
    exact (straight_bind D _ _ d d' d' [Rd (fa lo) (to_uint32 v)] []
             (to_uint32 v) _
             (fun m => Hload m) (fun m => straight_ret D _ m d') m).
Qed.

End Driver.

Section Protocol.

Context (D : device).

Lemma zip_with_region (off : Z) (ws : list Z) :
  length ws = 16%nat -> zip_with Rd (region off) ws = result_reads off ws.
Proof.
  intros H.
  do 16 (destruct ws as [|? ws]; [discriminate H|]).
  destruct ws; [reflexivity|discriminate H].
Qed.

Lemma straight_read_result (off : Z) (buf : list Z) (d : dstate D) (n : nat) :
  run D n (read_result off buf) d =
  straight (result_reads off (fst (dev_loads D (region off) d)))
           (filled buf (fst (dev_loads D (region off) d)))
           (snd (dev_loads D (region off) d)) n.
Proof.
  etransitivity; [exact (straight_load_loop D (accel_reg off) 16 0 d buf n)|].
  change (map (accel_reg off) (seq 0 16)) with (region off).
  rewrite zip_with_region; [reflexivity|].
  rewrite dev_loads_length. reflexivity.
Qed.

Lemma run_read_stage (HW_Sum HW_Diff HW_Prod : list Z) (d : dstate D) (n : nat) :
  run D n
    (s <- read_result SUM_OFFSET HW_Sum ;;
     df <- read_result DIFF_OFFSET HW_Diff ;;
     p <- read_result PROD_OFFSET HW_Prod ;;
     Ret (s, df, p)) d =
  read_stage D (HW_Sum, HW_Diff, HW_Prod) d n.
Proof.
  unfold read_stage.
  pose proof (fun m => straight_read_result SUM_OFFSET HW_Sum d m) as H1.
  destruct (dev_loads D (region SUM_OFFSET) d) as [s d1]. cbn [fst snd] in H1.
  pose proof (fun m => straight_read_result DIFF_OFFSET HW_Diff d1 m) as H2.
  destruct (dev_loads D (region DIFF_OFFSET) d1) as [df d2]. cbn [fst snd] in H2.
  pose proof (fun m => straight_read_result PROD_OFFSET HW_Prod d2 m) as H3.
  destruct (dev_loads D (region PROD_OFFSET) d2) as [p d3]. cbn [fst snd] in H3.
  rewrite <- (app_nil_r (result_reads PROD_OFFSET p)).
  revert n.
  refine (straight_bind D _ _ d d1 d3 _ _ _ _ H1 _).
  refine (straight_bind D _ _ d1 d2 d3 _ _ _ _ H2 _).
  refine (straight_bind D _ _ d2 d3 d3 _ _ _ _ H3 _).
  intros m. apply straight_ret.
Qed.

(** Steps 1 to 3, then the rest. *)
Lemma run_start_then {S : Type} (A B : list Z) (rest : itree busE S)
    (d : dstate D) (n : nat) :
  run D n
    (write_operand A_OFFSET A ;;;
     write_operand B_OFFSET B ;;;
     store CONTROL_REG 1 ;;;
     rest) d =
  and_then (straight (start_writes A B) tt (started D A B d) n)
           (fun _ d' m => run D m rest d').
Proof.
  revert n. unfold start_writes, started.
  refine (straight_prefix D _ _ d _ _ _ _ tt tt _
            (fun m => straight_write_operand D A_OFFSET A d m) _).
  refine (straight_prefix D _ _ _ _ _ _ _ tt tt _
            (fun m => straight_write_operand D B_OFFSET B _ m) _).
  intros m. apply straight_then. intros k. apply straight_store.
Qed.

Lemma driver_run (A B HW_Sum HW_Diff HW_Prod : list Z) (d : dstate D) (n : nat) :
  run D n (hardware_matrix_operations A B HW_Sum HW_Diff HW_Prod) d =
  and_then (straight (start_writes A B) tt (started D A B d) n)
    (fun _ d3 n3 =>
       and_then (run D n3 poll_status d3)
         (fun _ d4 n4 => read_stage D (HW_Sum, HW_Diff, HW_Prod) d4 n4)).
Proof.
  unfold hardware_matrix_operations.
  change (word_at MATRIX_ACCEL_BASE CONTROL_OFFSET) with CONTROL_REG.
  rewrite run_start_then. apply and_then_ext. intros _ d3 n3.
  rewrite run_bind. apply and_then_ext. intros _ d4 n4.
  apply run_read_stage.
Qed.

(** *** The polling loop *)

Lemma iter_observe {R I : Type} (step : I -> itree busE (I + R)) (i : I) :
  observe (ITree.iter step i) =
  observe (ITree.bind (step i)
             (fun lr => match lr with
                        | inl l => Tau (ITree.iter step l)
                        | inr r => Ret r
                        end)).
Proof. reflexivity. Qed.

Lemma run_poll_0 (d : dstate D) : run D 0 poll_status d = ([], Running).
Proof. reflexivity. Qed.

(** One round of the loop: a load of the status register, then out of
    the loop if bit 0 is set and round again if not. *)
Lemma run_poll_step (n : nat) (d : dstate D) :
  run D (Datatypes.S n) poll_status d =
  let w := to_uint32 (fst (dev_load D STATUS_REG d)) in
  let d' := snd (dev_load D STATUS_REG d) in
  if done_bit w =? 0 then
    match n with
    | O => ([Rd STATUS_REG w], Running)
    | Datatypes.S n' =>
        let '(tr, o) := run D n' poll_status d' in (Rd STATUS_REG w :: tr, o)
    end
  else ([Rd STATUS_REG w], Returned tt d' n).
Proof.
  unfold poll_status at 1.
  rewrite (run_observe D _ _ _ _ (iter_observe _ tt)).
  rewrite !run_bind, straight_load.
  change (word_at MATRIX_ACCEL_BASE STATUS_OFFSET) with STATUS_REG.
  destruct (dev_load D STATUS_REG d) as [v d']. cbn [fst snd].
  unfold straight. cbn [length Nat.leb firstn and_then Nat.sub].
  rewrite Nat.sub_0_r, firstn_nil. unfold done_bit, uand32.
  destruct (Z.land (to_uint32 v) 1 =? 0).
  - rewrite run_ret. cbn [and_then app]. destruct n as [|n]; [reflexivity|].
    rewrite run_tau.
    change (ITree.iter _ tt) with poll_status.
    destruct (run D n poll_status d'). reflexivity.
  - rewrite run_ret. cbn [and_then app]. rewrite run_ret. reflexivity.
Qed.

End Protocol.

(** ** The shape of a call of the driver *)

Lemma done_bit_cases (w : Z) : done_bit w = 0 \/ done_bit w = 1.
Proof.
  unfold done_bit. change 1 with (Z.ones 1) at 1 2. rewrite Z.land_ones by lia.
  change (2 ^ 1) with 2. change (Z.ones 1) with 1.
  pose proof (Z.mod_pos_bound w 2 ltac:(lia)). lia.
Qed.

Lemma in_status_reads (w : Z) (polls : list Z) :
  In (Rd STATUS_REG w) (status_reads polls) -> In w polls.
Proof.
  unfold status_reads. intros H. apply List.in_map_iff in H.
  destruct H as [v [[= ->] Hv]]. exact Hv.
Qed.

Lemma in_firstn {X : Type} (x : X) (n : nat) (l : list X) :
  In x (firstn n l) -> In x l.
Proof.
  intros H. rewrite <- (firstn_skipn n l). apply in_or_app. left. exact H.
Qed.

Lemma start_writes_length (A B : list Z) : length (start_writes A B) = 33%nat.
Proof. reflexivity. Qed.

Lemma start_writes_are_writes (A B : list Z) (a : access) :
  In a (start_writes A B) -> exists addr v, a = Wr addr v.
Proof.
  unfold start_writes, operand_writes. rewrite !in_app_iff, !List.in_map_iff.
  intros [[aw [<- _]]|[[aw [<- _]]|[<-|[]]]]; eauto.
Qed.

Lemma result_reads_length (off : Z) (ws : list Z) :
  length (result_reads off ws) = 16%nat.
Proof. reflexivity. Qed.

Section Shape.

Context (D : device).

(** The loop makes status reads with the done bit clear, and returns
    after the first one with the done bit set. *)
Lemma run_poll_cases (n : nat) (d : dstate D) :
  exists polls, Forall (fun w => done_bit w = 0) polls /\
    (run D n poll_status d = (status_reads polls, Running) \/
     exists last d' m, done_bit last = 1 /\
       run D n poll_status d =
       (status_reads polls ++ [Rd STATUS_REG last], Returned tt d' m)).
Proof.
  revert d. induction n as [n IH] using lt_wf_ind. intros d.
  destruct n as [|n].
  - exists []. split; [constructor|]. left. apply run_poll_0.
  - rewrite run_poll_step. cbv zeta.
    set (w := to_uint32 (fst (dev_load D STATUS_REG d))).
    set (d' := snd (dev_load D STATUS_REG d)).
    destruct (Z.eqb_spec (done_bit w) 0) as [Hz|Hnz].
    + destruct n as [|n].
      * exists [w]. split; [repeat constructor; exact Hz|]. left. reflexivity.
      * destruct (IH n ltac:(lia) d') as [polls [Hpolls [Hrun|Hret]]].
        -- exists (w :: polls). split; [constructor; assumption|]. left.
           rewrite Hrun. reflexivity.
        -- destruct Hret as (last & d'' & m & Hlast & Hrun).
           exists (w :: polls). split; [constructor; assumption|]. right.
           exists last, d'', m. split; [exact Hlast|]. rewrite Hrun. reflexivity.
    + exists []. split; [constructor|]. right. exists w, d', n.
      split; [|reflexivity]. destruct (done_bit_cases w); [contradiction|assumption].
Qed.

Lemma driver_shape (A B HW_Sum HW_Diff HW_Prod : list Z) (d : dstate D) (fuel : nat) :
  exists polls last s df p,
    Forall (fun w => done_bit w = 0) polls /\ done_bit last = 1 /\
    fst (run D fuel (hardware_matrix_operations A B HW_Sum HW_Diff HW_Prod) d)
      `prefix_of` protocol_trace A B polls last s df p /\
    (returned (snd (run D fuel (hardware_matrix_operations A B HW_Sum HW_Diff HW_Prod) d)) ->
     fst (run D fuel (hardware_matrix_operations A B HW_Sum HW_Diff HW_Prod) d)
     = protocol_trace A B polls last s df p).
Proof.
  rewrite driver_run. unfold straight. rewrite start_writes_length.
  destruct (Nat.leb_spec 33 fuel) as [Hle|Hlt]; cbn [and_then].
  - rewrite firstn_all2 by (rewrite start_writes_length; exact Hle).
    destruct (run_poll_cases (fuel - 33) (started D A B d))
      as [polls [Hpolls [Hrun|(last & d4 & m & Hlast & Hrun)]]];
      rewrite Hrun; cbn [and_then].
    + exists polls, 1, [], [], []. split; [exact Hpolls|]. split; [reflexivity|].
      cbn [fst snd returned]. split; [|contradiction].
      unfold protocol_trace. eexists. rewrite <- !app_assoc. reflexivity.
    + unfold read_stage.
      destruct (dev_loads D (region SUM_OFFSET) d4) as [s d5].
      destruct (dev_loads D (region DIFF_OFFSET) d5) as [df d6].
      destruct (dev_loads D (region PROD_OFFSET) d6) as [p d7].
      exists polls, last, s, df, p. split; [exact Hpolls|]. split; [exact Hlast|].
      unfold straight, protocol_trace.
      set (reads := result_reads SUM_OFFSET s ++ result_reads DIFF_OFFSET df ++
                    result_reads PROD_OFFSET p).
      cbn [fst snd]. split.
      * exists (skipn m reads).
        rewrite <- (firstn_skipn m reads) at 1. rewrite <- !app_assoc. reflexivity.
      * destruct (Nat.leb_spec (length reads) m) as [Hm|Hm]; [|contradiction].
        intros _. rewrite firstn_all2 by exact Hm.
        rewrite <- !app_assoc. reflexivity.
  - exists [], 1, [], [], []. split; [constructor|]. split; [reflexivity|].
    cbn [fst snd returned]. split; [|contradiction].
    unfold protocol_trace. eexists.
    rewrite <- (firstn_skipn fuel (start_writes A B)) at 1.
    rewrite <- !app_assoc. reflexivity.
Qed.

(** Once the done bit has been read, forty-eight more steps end the
    call. *)
Lemma driver_returns_after_done (A B HW_Sum HW_Diff HW_Prod : list Z)
    (d : dstate D) (fuel : nat) (w : Z) :
  In (Rd STATUS_REG w)
     (fst (run D fuel (hardware_matrix_operations A B HW_Sum HW_Diff HW_Prod) d)) ->
  done_bit w = 1 ->
  returned (snd (run D (fuel + 48) (hardware_matrix_operations A B HW_Sum HW_Diff HW_Prod) d)).
Proof.
  rewrite !driver_run. unfold straight. rewrite start_writes_length.
  destruct (Nat.leb_spec 33 fuel) as [Hle|Hlt]; cbn [and_then].
  - destruct (Nat.leb_spec 33 (fuel + 48)) as [_|?]; [|lia]. cbn [and_then].
    destruct (run_poll_cases (fuel - 33) (started D A B d))
      as [polls [Hpolls [Hrun|(last & d4 & m & Hlast & Hrun)]]].
    + rewrite Hrun. cbn [and_then fst]. rewrite in_app_iff.
      intros [Hin|Hin] Hw.
      * apply in_firstn, start_writes_are_writes in Hin.
        destruct Hin as (? & ? & [=]).
      * apply in_status_reads in Hin.
        rewrite List.Forall_forall in Hpolls.
        rewrite (Hpolls w Hin) in Hw. discriminate.
    + intros _ _.
      replace (fuel + 48 - 33)%nat with (fuel - 33 + 48)%nat by lia.
      rewrite (run_more D _ _ 48 _ _ _ _ _ Hrun). cbn [and_then].
      unfold read_stage.
      destruct (dev_loads D (region SUM_OFFSET) d4) as [s d5].
      destruct (dev_loads D (region DIFF_OFFSET) d5) as [df d6].
      destruct (dev_loads D (region PROD_OFFSET) d6) as [p d7].
      unfold straight. rewrite !length_app, !result_reads_length.
      destruct (Nat.leb_spec (16 + (16 + 16)) (m + 48)) as [_|?]; [|lia].
      exact I.
  - cbn [fst]. intros Hin _.
    apply in_firstn, start_writes_are_writes in Hin.
    destruct Hin as (? & ? & [=]).
Qed.

End Shape.

Lemma status_is_no_result_reg : is_result_reg STATUS_REG = false.
Proof. reflexivity. Qed.

Lemma protocol_head_before_results (A B polls : list Z) (last : Z) :
  Forall before_results
    (start_writes A B ++ status_reads polls ++ [Rd STATUS_REG last]).
Proof.
  apply List.Forall_forall. intros a. rewrite !in_app_iff.
  intros [Hin|[Hin|[<-|[]]]].
  - apply start_writes_are_writes in Hin. destruct Hin as (? & ? & ->). exact I.
  - unfold status_reads in Hin. apply List.in_map_iff in Hin.
    destruct Hin as [v [<- _]]. exact status_is_no_result_reg.
  - exact status_is_no_result_reg.
Qed.

(** In a prefix of a call, a load from a result region comes after the
    status read that had the done bit set. *)
Lemma result_read_after_done (A B polls : list Z) (last : Z) (s df p : list Z)
    (tr pre post : list access) (addr w : Z) :
  tr `prefix_of` protocol_trace A B polls last s df p ->
  tr = pre ++ Rd addr w :: post ->
  is_result_reg addr = true ->
  In (Rd STATUS_REG last) pre.
Proof.
  intros [k Hk] -> Hres. unfold protocol_trace in Hk.
  set (reads := result_reads SUM_OFFSET s ++ result_reads DIFF_OFFSET df ++
                result_reads PROD_OFFSET p) in Hk.
  pose proof (protocol_head_before_results A B polls last) as Hhead.
  set (head := start_writes A B ++ status_reads polls ++ [Rd STATUS_REG last]) in *.
  assert (Hsplit : head ++ reads = pre ++ (Rd addr w :: post ++ k)).
  { subst head. rewrite <- !app_assoc. rewrite Hk. rewrite <- !app_assoc. reflexivity. }
  assert (Hlast : In (Rd STATUS_REG last) head).
  { subst head. rewrite !in_app_iff. right. right. left. reflexivity. }
  apply app_eq_app in Hsplit. destruct Hsplit as [l [[Hh Hr]|[Hp Hr]]].
  - destruct l as [|x l].
    + rewrite app_nil_r in Hh. subst pre. exact Hlast.
    + injection Hr as <- _. exfalso.
      rewrite List.Forall_forall in Hhead.
      assert (Hin : In (Rd addr w) head).
      { rewrite Hh. apply in_or_app. right. left. reflexivity. }
      specialize (Hhead _ Hin). cbn [before_results] in Hhead. congruence.
  - rewrite Hp. apply in_or_app. left. exact Hlast.
Qed.

(** The loop keeps polling: with [2 * k + 1] steps it has made its status
    read number [k], unless an earlier one had the done bit set. *)
Lemma poll_progress (D : device) (k n : nat) (d : dstate D) :
  (2 * k + 1 <= n)%nat ->
  (exists w, fst (run D n poll_status d) !! k = Some (Rd STATUS_REG w)) \/
  (exists j w, (j < k)%nat /\
     fst (run D n poll_status d) !! j = Some (Rd STATUS_REG w) /\ done_bit w = 1).
Proof.
  revert n d. induction k as [|k IH]; intros n d Hn.
  - destruct n as [|n]; [lia|]. left. rewrite run_poll_step. cbv zeta.
    destruct (done_bit _ =? 0); [|eexists; reflexivity].
    destruct n as [|n]; [eexists; reflexivity|].
    destruct (run D n poll_status _) as [tr o]. eexists. reflexivity.
  - destruct n as [|[|n]]; [lia|lia|]. rewrite run_poll_step. cbv zeta.
    set (w := to_uint32 (fst (dev_load D STATUS_REG d))).
    set (d' := snd (dev_load D STATUS_REG d)).
    destruct (Z.eqb_spec (done_bit w) 0) as [Hz|Hnz].
    + specialize (IH n d' ltac:(lia)).
      destruct (run D n poll_status d') as [tr o]. cbn [fst] in *.
      destruct IH as [[w' Hw']|(j & w' & Hj & Hw' & Hd)].
      * left. exists w'. exact Hw'.
      * right. exists (Datatypes.S j), w'. split; [lia|]. split; [exact Hw'|exact Hd].
    + right. exists 0%nat, w. split; [lia|]. split; [reflexivity|].
      destruct (done_bit_cases w); [contradiction|assumption].
Qed.

Lemma and_then_fst {R S St : Type} (x : list access * outcome R St)
    (f : R -> St -> nat -> list access * outcome S St) :
  exists rest, fst (and_then x f) = fst x ++ rest.
Proof.
  destruct x as [tr [r d m|]]; cbn [and_then fst].
  - destruct (f r d m) as [tr' o]. exists tr'. reflexivity.
  - exists []. rewrite app_nil_r. reflexivity.
Qed.

(** The driver makes progress: its first accesses are the thirty-three
    stores of steps 1 to 3, one for each step observed, and then it polls
    the status register for as long as the done bit is clear. *)
Lemma driver_progress (D : device) (A B HW_Sum HW_Diff HW_Prod : list Z)
    (d : dstate D) (fuel : nat) :
  let tr := fst (run D fuel (hardware_matrix_operations A B HW_Sum HW_Diff HW_Prod) d) in
  firstn 33 tr = firstn fuel (start_writes A B) /\
  (forall k : nat, (34 + 2 * k <= fuel)%nat ->
     (exists w, tr !! (33 + k)%nat = Some (Rd STATUS_REG w)) \/
     (exists j w, (j < k)%nat /\
        tr !! (33 + j)%nat = Some (Rd STATUS_REG w) /\ done_bit w = 1)).
Proof.
  intros tr. subst tr. rewrite driver_run. unfold straight.
  rewrite start_writes_length.
  destruct (Nat.leb_spec 33 fuel) as [Hle|Hlt]; cbn [and_then].
  - rewrite !(firstn_all2 (start_writes A B))
      by (rewrite start_writes_length; lia).
    destruct (and_then_fst (run D (fuel - 33) poll_status (started D A B d))
                (fun _ d4 n4 => read_stage D (HW_Sum, HW_Diff, HW_Prod) d4 n4))
      as [rest Hrest].
    destruct (and_then _ _) as [tr' o']. cbn [fst] in *. subst tr'. split.
    + rewrite firstn_app, start_writes_length, Nat.sub_diag.
      rewrite firstn_all2 by (rewrite start_writes_length; lia).
      cbn [firstn]. apply app_nil_r.
    + intros k Hk.
      assert (Hat : forall i,
                 (start_writes A B ++
                  fst (run D (fuel - 33) poll_status (started D A B d)) ++ rest)
                   !! (33 + i)%nat
                 = (fst (run D (fuel - 33) poll_status (started D A B d)) ++ rest) !! i).
      { intros i. rewrite lookup_app_r by (rewrite start_writes_length; lia).
        rewrite start_writes_length. f_equal. lia. }
      destruct (poll_progress D k (fuel - 33) (started D A B d) ltac:(lia))
        as [[w Hw]|(j & w & Hj & Hw & Hd)].
      * left. exists w. rewrite Hat. apply lookup_app_l_Some. exact Hw.
      * right. exists j, w. split; [exact Hj|]. split; [|exact Hd].
        rewrite Hat. apply lookup_app_l_Some. exact Hw.
  - cbn [fst]. split; [|intros k Hk; lia].
    rewrite firstn_firstn. f_equal. lia.
Qed.

(** C6. In every call of the driver, on any device and however long the
    call is observed, the accesses seen are a prefix of: the sixteen stores
    of [A], the sixteen stores of [B], the one store of 1 to the control
    register, status reads with bit 0 clear, one status read with bit 0
    set, and the loads of the three result regions; a call that returned
    made all of them; and every load from a result region is preceded by a
    status read that had bit 0 set.  The call does make these accesses:
    observed for [fuel] steps its first accesses are the first [fuel] of
    the thirty-three stores, all of them from 33 steps on; the next access
    is a status read, and the status reads go on, one more for every two
    further steps, until one has bit 0 set; and once a status read with
    bit 0 set has been seen, forty-eight more steps (the loads of the
    results) end the call. *)
Theorem driver_access_order (D : device) (A B HW_Sum HW_Diff HW_Prod : list Z)
    (d : dstate D) (fuel : nat) :
  let '(tr, o) :=
    run D fuel (hardware_matrix_operations A B HW_Sum HW_Diff HW_Prod) d in
  (exists polls last s df p,
     Forall (fun w => done_bit w = 0) polls /\ done_bit last = 1 /\
     tr `prefix_of` protocol_trace A B polls last s df p /\
     (returned o -> tr = protocol_trace A B polls last s df p)) /\
  (forall pre post addr w,
     tr = pre ++ Rd addr w :: post -> is_result_reg addr = true ->
     exists last, In (Rd STATUS_REG last) pre /\ done_bit last = 1) /\
  firstn 33 tr = firstn fuel (start_writes A B) /\
  ((33 <= fuel)%nat -> exists rest, tr = start_writes A B ++ rest) /\
  (forall k : nat, (34 + 2 * k <= fuel)%nat ->
     (exists w, tr !! (33 + k)%nat = Some (Rd STATUS_REG w)) \/
     (exists j w, (j < k)%nat /\
        tr !! (33 + j)%nat = Some (Rd STATUS_REG w) /\ done_bit w = 1)) /\
  ((exists w, In (Rd STATUS_REG w) tr /\ done_bit w = 1) ->
   returned
     (snd (run D (fuel + 48)
             (hardware_matrix_operations A B HW_Sum HW_Diff HW_Prod) d))).
Proof.
  pose proof (driver_shape D A B HW_Sum HW_Diff HW_Prod d fuel) as H.
  pose proof (driver_progress D A B HW_Sum HW_Diff HW_Prod d fuel) as Hprog.
  pose proof (driver_returns_after_done D A B HW_Sum HW_Diff HW_Prod d fuel) as Hdone.
  destruct (run D fuel (hardware_matrix_operations A B HW_Sum HW_Diff HW_Prod) d)
    as [tr o].
  cbn [fst snd] in H, Hprog, Hdone.
  destruct H as (polls & last & s & df & p & Hpolls & Hlast & Hpre & Hall).
  destruct Hprog as [Hfirst Hpoll].
  split; [|split; [|split; [|split; [|split]]]].
  - exists polls, last, s, df, p. auto.
  - intros pre post addr w Htr Hres. exists last. split; [|exact Hlast].
    exact (result_read_after_done A B polls last s df p tr pre post addr w
             Hpre Htr Hres).
  - exact Hfirst.
  - intros Hfuel. exists (skipn 33 tr).
    rewrite <- (firstn_skipn 33 tr) at 1. rewrite Hfirst.
    rewrite firstn_all2 by (rewrite start_writes_length; exact Hfuel). reflexivity.
  - exact Hpoll.
  - intros (w & Hin & Hw). exact (Hdone w Hin Hw).
Qed.

(** The example trace: operands stored, started, two status reads, all
    results loaded. *)
Example driver_access_order_example :
  fst (run (accel_device 1) 200
         (hardware_matrix_operations sample_A sample_B zeros16 zeros16 zeros16)
         accel_reset)
  = protocol_trace sample_A sample_B [0] 1
      (map to_uint32 (matrix_sum sample_A sample_B))
      (map to_uint32 (matrix_diff sample_A sample_B))
      (map to_uint32 (matrix_product sample_A sample_B)).
Proof. vm_compute. reflexivity. Qed.

(** On a device whose status register always reads 0 the loop is still
    running after any number of steps, and so is the driver. *)
Lemma silent_poll_running (fuel : nat) (d : dstate silent_device) :
  snd (run silent_device fuel poll_status d) = Running.
Proof.
  induction fuel as [fuel IH] using lt_wf_ind. destruct fuel as [|fuel].
  - reflexivity.
  - rewrite run_poll_step. cbn [silent_device dev_load fst snd]. cbv zeta.
    change (done_bit (to_uint32 0) =? 0) with true. cbv iota.
    destruct fuel as [|fuel]; [reflexivity|].
    specialize (IH fuel ltac:(lia)).
    destruct (run silent_device fuel poll_status d) as [tr o]. exact IH.
Qed.

Lemma silent_driver_running (A B HW_Sum HW_Diff HW_Prod : list Z) (fuel : nat) :
  snd (run silent_device fuel
         (hardware_matrix_operations A B HW_Sum HW_Diff HW_Prod) tt) = Running.
Proof.
  rewrite driver_run. unfold straight.
  destruct (length (start_writes A B) <=? fuel)%nat; cbn [and_then]; [|reflexivity].
  pose proof (silent_poll_running (fuel - length (start_writes A B))
                (started silent_device A B tt)) as H.
  destruct (run silent_device _ poll_status _) as [tr o].
  cbn [snd] in H. subst o. reflexivity.
Qed.

(** C8. The polling loop has returned exactly when one of its status reads
    had bit 0 set; a call of the driver that returned has seen such a read,
    and a call that has seen one returns within the forty-eight loads that
    follow; if no status read ever has bit 0 set the call is still running
    after any number of steps, as it is on a device whose status register
    always reads 0. *)
Theorem status_poll_is_unbounded_wait (D : device)
    (A B HW_Sum HW_Diff HW_Prod : list Z) (d : dstate D) :
  let call := hardware_matrix_operations A B HW_Sum HW_Diff HW_Prod in
  (forall fuel d',
     returned (snd (run D fuel poll_status d')) <->
     exists w, In (Rd STATUS_REG w) (fst (run D fuel poll_status d')) /\ done_bit w = 1) /\
  (forall fuel,
     returned (snd (run D fuel call d)) ->
     exists w, In (Rd STATUS_REG w) (fst (run D fuel call d)) /\ done_bit w = 1) /\
  (forall fuel,
     (exists w, In (Rd STATUS_REG w) (fst (run D fuel call d)) /\ done_bit w = 1) ->
     returned (snd (run D (fuel + 48) call d))) /\
  ((forall fuel w, In (Rd STATUS_REG w) (fst (run D fuel call d)) -> done_bit w = 0) ->
   forall fuel, snd (run D fuel call d) = Running) /\
  (forall fuel, snd (run silent_device fuel call tt) = Running).
Proof.
  intros call.
  assert (Hret : forall (D' : device) (d0 : dstate D') fuel,
             returned (snd (run D' fuel call d0)) ->
             exists w, In (Rd STATUS_REG w) (fst (run D' fuel call d0)) /\ done_bit w = 1).
  { intros D' d0 fuel Hr.
    destruct (driver_shape D' A B HW_Sum HW_Diff HW_Prod d0 fuel)
      as (polls & last & s & df & p & _ & Hlast & _ & Hall).
    fold call in Hall. rewrite (Hall Hr). exists last. split; [|exact Hlast].
    unfold protocol_trace. rewrite !in_app_iff. right. right. left. left. reflexivity. }
  assert (Hnever : forall (D' : device) (d0 : dstate D'),
             (forall fuel w, In (Rd STATUS_REG w) (fst (run D' fuel call d0)) -> done_bit w = 0) ->
             forall fuel, snd (run D' fuel call d0) = Running).
  { intros D' d0 Hzero fuel.
    destruct (snd (run D' fuel call d0)) as [r d1 m|] eqn:E; [|reflexivity].
    destruct (Hret D' d0 fuel) as (w & Hin & Hw); [rewrite E; exact I|].
    rewrite (Hzero fuel w Hin) in Hw. discriminate. }
  split; [|split; [|split; [|split]]].
  - intros fuel d'.
    destruct (run_poll_cases D fuel d')
      as [polls [Hpolls [Hrun|(last & d4 & m & Hlast & Hrun)]]]; rewrite Hrun;
      cbn [fst snd returned]; split.
    + contradiction.
    + intros (w & Hin & Hw). apply in_status_reads in Hin.
      rewrite List.Forall_forall in Hpolls. rewrite (Hpolls w Hin) in Hw.
      discriminate.
    + intros _. exists last. split; [|exact Hlast].
      apply in_or_app. right. left. reflexivity.
    + intros _. exact I.
  - intros fuel. apply Hret.
  - intros fuel (w & Hin & Hw).
    exact (driver_returns_after_done D A B HW_Sum HW_Diff HW_Prod d fuel w Hin Hw).
  - apply Hnever.
  - apply silent_driver_running.
Qed.

(** ** Words on the bus *)

Lemma lor_uint32 (a b : Z) : in_uint32 a -> in_uint32 b -> in_uint32 (Z.lor a b).
Proof.
  unfold in_uint32. intros Ha Hb.
  assert (0 <= Z.lor a b) by (apply Z.lor_nonneg; lia).
  split; [assumption|].
  destruct (Z.eq_dec (Z.lor a b) 0) as [->|Hne]; [lia|].
  assert (Z.lor a b < 2 ^ 32); [|lia].
  apply Z.log2_lt_pow2; [lia|]. rewrite Z.log2_lor by lia.
  apply Z.max_lub_lt.
  - destruct (Z.eq_dec a 0) as [->|]; [reflexivity|apply Z.log2_lt_pow2; lia].
  - destruct (Z.eq_dec b 0) as [->|]; [reflexivity|apply Z.log2_lt_pow2; lia].
Qed.

Lemma testbit_small (w n k : Z) :
  0 <= n -> 0 <= w < 2 ^ n -> n <= k -> Z.testbit w k = false.
Proof.
  intros Hn Hw Hk. rewrite <- (Z.mod_small w (2 ^ n)) by lia.
  apply Z.mod_pow2_bits_high. lia.
Qed.

(** Two words with no bit in common: or is plus. *)
Lemma lor_high_low (hi lo : Z) :
  0 <= hi -> 0 <= lo < 2 ^ 16 -> Z.lor (hi * 2 ^ 16) lo = hi * 2 ^ 16 + lo.
Proof.
  intros Hhi Hlo.
  assert (Hland : Z.land (hi * 2 ^ 16) lo = 0).
  { apply Z.bits_inj'. intros k Hk. rewrite Z.land_spec, Z.bits_0.
    destruct (Z.lt_ge_cases k 16) as [Hlt|Hge].
    - rewrite Z.mul_pow2_bits_low by lia. reflexivity.
    - rewrite (testbit_small lo 16 k) by lia. apply andb_false_r. }
  rewrite <- Z.lxor_lor by exact Hland.
  symmetry. apply Z.add_nocarry_lxor. exact Hland.
Qed.

Lemma count_of_halves (hi lo : Z) :
  0 <= hi < 2 ^ 16 -> 0 <= lo < 2 ^ 16 -> count_of hi lo = hi * 2 ^ 16 + lo.
Proof.
  intros Hhi Hlo. unfold count_of, uor32, ushl32, to_uint32.
  rewrite Z.shiftl_mul_pow2 by lia.
  rewrite Z.mod_small by lia. apply lor_high_low; lia.
Qed.

Lemma count_of_uint32 (hi lo : Z) : in_uint32 lo -> in_uint32 (count_of hi lo).
Proof.
  intros Hlo. unfold count_of, uor32, ushl32.
  apply lor_uint32; [apply to_uint32_range|exact Hlo].
Qed.

(** The word stored for an [int16_t] operand. *)
Lemma bits16_range (x : Z) : 0 <= bits16 x < 2 ^ 16.
Proof. unfold bits16. apply Z.mod_pos_bound. lia. Qed.

Lemma bits16_int16 (x : Z) :
  in_int16 x -> bits16 x = if x <? 0 then x + 2 ^ 16 else x.
Proof.
  unfold in_int16, bits16. intros Hx. destruct (Z.ltb_spec x 0).
  - symmetry. apply (Z.mod_unique_pos _ _ (-1)); lia.
  - apply Z.mod_small. lia.
Qed.

Lemma to_uint32_int16 (x : Z) :
  in_int16 x -> to_uint32 x = if x <? 0 then x + 2 ^ 32 else x.
Proof.
  unfold in_int16, to_uint32. intros Hx. destruct (Z.ltb_spec x 0).
  - symmetry. apply (Z.mod_unique_pos _ _ (-1)); lia.
  - apply Z.mod_small. lia.
Qed.

Lemma testbit15 (u : Z) :
  0 <= u < 2 ^ 16 -> Z.testbit u 15 = negb (u <? 2 ^ 15).
Proof.
  intros Hu. destruct (Z.ltb_spec u (2 ^ 15)); cbn [negb].
  - apply (testbit_small u 15 15); lia.
  - apply Z.testbit_true; [lia|].
    replace (u / 2 ^ 15) with 1; [reflexivity|].
    apply (Z.div_unique_pos u (2 ^ 15) 1 (u - 2 ^ 15)); lia.
Qed.

Lemma sign_extension_of_int16 (x : Z) :
  in_int16 x ->
  to_uint32 x = sign_extend16 (bits16 x) /\
  Z.land (to_uint32 x) 65535 = bits16 x /\
  signed16 (to_uint32 x) = x.
Proof.
  intros Hx. pose proof (bits16_range x) as Hr.
  assert (Hlow : to_uint32 x mod 2 ^ 16 = bits16 x).
  { unfold to_uint32, bits16.
    apply Z.mod_mod_divide. exists (2 ^ 16). reflexivity. }
  split; [|split].
  - unfold sign_extend16. rewrite (testbit15 _ Hr).
    rewrite (to_uint32_int16 x Hx), (bits16_int16 x Hx).
    unfold in_int16 in Hx.
    destruct (Z.ltb_spec x 0).
    + destruct (Z.ltb_spec (x + 2 ^ 16) (2 ^ 15)); [lia|]. cbn [negb].
      change 4294901760 with (65535 * 2 ^ 16).
      rewrite Z.lor_comm, lor_high_low by lia. lia.
    + destruct (Z.ltb_spec x (2 ^ 15)); [reflexivity|lia].
  - change 65535 with (Z.ones 16). rewrite Z.land_ones by lia. exact Hlow.
  - unfold signed16. rewrite Hlow, (bits16_int16 x Hx). unfold in_int16 in Hx.
    destruct (Z.ltb_spec x 0).
    + destruct (Z.ltb_spec (x + 2 ^ 16) (2 ^ 15)); lia.
    + destruct (Z.ltb_spec x (2 ^ 15)); lia.
Qed.

(** C10. In a call observed for at least thirty-two steps, the access
    number [i] is the store to register [i] of the operand-A region and
    the access number [16 + i] the store to register [i] of the operand-B
    region, and the word stored for an element [x] is the sign extension
    of the 16-bit two's-complement pattern of [x]: its low 16 bits are
    that pattern, and read back as a signed 16-bit value they are [x]. *)
Theorem operand_words_are_sign_extended (D : device)
    (A B HW_Sum HW_Diff HW_Prod : list Z) (d : dstate D) (fuel i : nat) :
  int16_matrix A -> int16_matrix B -> (32 <= fuel)%nat -> (i < 16)%nat ->
  let tr := fst (run D fuel (hardware_matrix_operations A B HW_Sum HW_Diff HW_Prod) d) in
  let wa := sign_extend16 (bits16 (elt A i)) in
  let wb := sign_extend16 (bits16 (elt B i)) in
  tr !! i = Some (Wr (accel_reg A_OFFSET i) wa) /\
  tr !! (16 + i)%nat = Some (Wr (accel_reg B_OFFSET i) wb) /\
  wa = to_uint32 (elt A i) /\ wb = to_uint32 (elt B i) /\
  Z.land wa 65535 = bits16 (elt A i) /\ Z.land wb 65535 = bits16 (elt B i) /\
  signed16 wa = elt A i /\ signed16 wb = elt B i.
Proof.
  intros HA HB Hfuel Hi tr wa wb.
  destruct (sign_extension_of_int16 _ (int16_elt_at A i HA Hi)) as (Ea & La & Sa).
  destruct (sign_extension_of_int16 _ (int16_elt_at B i HB Hi)) as (Eb & Lb & Sb).
  fold wa in Ea. fold wb in Eb. rewrite <- Ea, <- Eb.
  assert (Htr : exists rest,
             tr = operand_writes A_OFFSET A ++ operand_writes B_OFFSET B ++ rest).
  { subst tr. rewrite driver_run. unfold straight. rewrite start_writes_length.
    destruct (Nat.leb_spec 33 fuel) as [Hle|Hlt]; cbn [and_then].
    - rewrite firstn_all2 by (rewrite start_writes_length; exact Hle).
      destruct (and_then _ _) as [tr' o]. cbn [fst]. unfold start_writes.
      eexists. rewrite <- !app_assoc. reflexivity.
    - replace fuel with 32%nat by lia. exists []. reflexivity. }
  destruct Htr as [rest ->].
  assert (Hrow : forall off M,
             (operand_writes off M) !! i =
             Some (Wr (accel_reg off i) (to_uint32 (elt M i)))).
  { intros off M. clear -Hi. do 16 (destruct i as [|i]; [reflexivity|]). lia. }
  repeat split; try assumption.
  - rewrite lookup_app_l by (cbn; lia). rewrite Hrow. reflexivity.
  - rewrite lookup_app_r by (cbn; lia).
    replace (16 + i - length (operand_writes A_OFFSET A))%nat with i by (cbn; lia).
    rewrite lookup_app_l by (cbn; lia). rewrite Hrow. reflexivity.
Qed.

Lemma operand_words_are_sign_extended_witness :
  let tr := fst (run silent_device 40
                   (hardware_matrix_operations sample_A sample_B zeros16 zeros16 zeros16)
                   tt) in
  let wa := sign_extend16 (bits16 (elt sample_A 8)) in
  let wb := sign_extend16 (bits16 (elt sample_B 8)) in
  tr !! 8%nat = Some (Wr (accel_reg A_OFFSET 8) wa) /\
  tr !! (16 + 8)%nat = Some (Wr (accel_reg B_OFFSET 8) wb) /\
  wa = to_uint32 (elt sample_A 8) /\ wb = to_uint32 (elt sample_B 8) /\
  Z.land wa 65535 = bits16 (elt sample_A 8) /\
  Z.land wb 65535 = bits16 (elt sample_B 8) /\
  signed16 wa = elt sample_A 8 /\ signed16 wb = elt sample_B 8.
Proof.
  apply (operand_words_are_sign_extended silent_device
           sample_A sample_B zeros16 zeros16 zeros16 tt 40 8).
  - exact sample_A_int16.
  - exact sample_B_int16.
  - lia.
  - lia.
Defined.

(** The word stored for -23170 is 0xFFFFA57E. *)
Example negative_operand_word :
  to_uint32 (-23170) = 4294944126 /\
  sign_extend16 (bits16 (-23170)) = 4294944126 /\
  Z.land 4294944126 65535 = 42366 /\ signed16 42366 = -23170.
Proof. vm_compute. auto. Qed.

(** ** The timer *)

Lemma straight_timer_stop_and_read (D : device) (d : dstate D) (n : nat) :
  let d1 := dev_store D (word_at TIMER_BASE 1) 8 d in
  let d2 := dev_store D (word_at TIMER_BASE 4) 1 d1 in
  let hi := to_uint32 (fst (dev_load D (word_at TIMER_BASE 5) d2)) in
  let d3 := snd (dev_load D (word_at TIMER_BASE 5) d2) in
  let lo := to_uint32 (fst (dev_load D (word_at TIMER_BASE 4) d3)) in
  let d4 := snd (dev_load D (word_at TIMER_BASE 4) d3) in
  run D n timer_stop_and_read d =
  straight [Wr (word_at TIMER_BASE 1) 8; Wr (word_at TIMER_BASE 4) 1;
            Rd (word_at TIMER_BASE 5) hi; Rd (word_at TIMER_BASE 4) lo]
           (usub32 4294967295 (count_of hi lo)) d4 n.
Proof.
  intros d1 d2 hi d3 lo d4. revert n. unfold timer_stop_and_read.
  refine (straight_bind D _ _ d d1 d4 [_] [_; _; _] tt _
            (fun m => straight_store D _ _ m d) _).
  refine (straight_bind D _ _ d1 d2 d4 [_] [_; _] tt _
            (fun m => straight_store D _ _ m d1) _).
  refine (straight_bind D _ _ d2 d3 d4 [_] [_] hi _
            (fun m => straight_load D _ m d2) _).
  refine (straight_bind D _ _ d3 d4 d4 [_] [] lo _
            (fun m => straight_load D _ m d3) _).
  intros m. apply straight_ret.
Qed.

(** C7. The read-back stores 8 (bit 3, the stop bit) to the control
    register of the timer, stores 1 to the snapshot register, loads the
    high count word and then the low count word; the count is the high
    word shifted left by 16 bits or-ed with the low word, which for two
    16-bit words is [hi * 2^16 + lo]; and the value returned is 0xFFFFFFFF
    minus that count. *)
Theorem timer_readback_sequence (D : device) (d : dstate D) (fuel : nat) :
  (4 <= fuel)%nat ->
  exists hi lo d',
    in_uint32 hi /\ in_uint32 lo /\
    run D fuel timer_stop_and_read d =
      ([Wr (word_at TIMER_BASE 1) 8; Wr (word_at TIMER_BASE 4) 1;
        Rd (word_at TIMER_BASE 5) hi; Rd (word_at TIMER_BASE 4) lo],
       Returned (4294967295 - count_of hi lo) d' (fuel - 4)) /\
    Z.testbit 8 3 = true /\
    count_of hi lo = Z.lor (Z.shiftl hi 16 mod 2 ^ 32) lo /\
    in_uint32 (count_of hi lo) /\
    (hi < 2 ^ 16 -> lo < 2 ^ 16 -> count_of hi lo = hi * 2 ^ 16 + lo).
Proof.
  intros Hfuel. pose proof (straight_timer_stop_and_read D d fuel) as H.
  cbv zeta in H.
  set (d2 := dev_store D (word_at TIMER_BASE 4) 1
               (dev_store D (word_at TIMER_BASE 1) 8 d)) in H.
  set (hi := to_uint32 (fst (dev_load D (word_at TIMER_BASE 5) d2))) in H.
  set (d3 := snd (dev_load D (word_at TIMER_BASE 5) d2)) in H.
  set (lo := to_uint32 (fst (dev_load D (word_at TIMER_BASE 4) d3))) in H.
  set (d4 := snd (dev_load D (word_at TIMER_BASE 4) d3)) in H.
  pose proof (to_uint32_range (fst (dev_load D (word_at TIMER_BASE 5) d2))) as Hhi.
  pose proof (to_uint32_range (fst (dev_load D (word_at TIMER_BASE 4) d3))) as Hlo.
  fold hi in Hhi. fold lo in Hlo.
  pose proof (count_of_uint32 hi lo Hlo) as Hc.
  exists hi, lo, d4. split; [exact Hhi|]. split; [exact Hlo|]. split; [|split; [|split; [|split]]].
  - rewrite H. unfold straight. cbn [length].
    destruct (Nat.leb_spec 4 fuel) as [_|?]; [|lia].
    rewrite firstn_all2 by (cbn [length]; lia).
    f_equal. f_equal. unfold usub32, to_uint32.
    unfold in_uint32 in Hc. apply Z.mod_small. lia.
  - reflexivity.
  - reflexivity.
  - exact Hc.
  - intros H1 H2. unfold in_uint32 in Hhi, Hlo. apply count_of_halves; lia.
Qed.

Lemma timer_readback_sequence_witness :
  exists hi lo d',
    in_uint32 hi /\ in_uint32 lo /\
    run (board 0 4294966000) 10 timer_stop_and_read accel_reset =
      ([Wr (word_at TIMER_BASE 1) 8; Wr (word_at TIMER_BASE 4) 1;
        Rd (word_at TIMER_BASE 5) hi; Rd (word_at TIMER_BASE 4) lo],
       Returned (4294967295 - count_of hi lo) d' (10 - 4)) /\
    Z.testbit 8 3 = true /\
    count_of hi lo = Z.lor (Z.shiftl hi 16 mod 2 ^ 32) lo /\
    in_uint32 (count_of hi lo) /\
    (hi < 2 ^ 16 -> lo < 2 ^ 16 -> count_of hi lo = hi * 2 ^ 16 + lo).
Proof.
  apply (timer_readback_sequence (board 0 4294966000) accel_reset 10). lia.
Defined.

(** With the count registers reading 0xFFFFFAF0 the read-back returns
    1295. *)
Example timer_readback_example :
  run (board 0 4294966000) 10 timer_stop_and_read accel_reset =
  ([Wr (word_at TIMER_BASE 1) 8; Wr (word_at TIMER_BASE 4) 1;
    Rd (word_at TIMER_BASE 5) 65535; Rd (word_at TIMER_BASE 4) 64240],
   Returned 1295 accel_reset 6).
Proof. vm_compute. reflexivity. Qed.

(** ** The speedup *)

(** C1 (the code does not guard the division). With a hardware cycle
    count of zero the quotient of line 285 is undefined: [speedup_of]
    has no value, whatever the software cycle count; and a round of
    [main] in which the count registers read 0xFFFFFFFF after the
    accelerator call reaches that division with [hw_cycles = 0]. *)
Theorem speedup_division_is_unguarded :
  (forall sw_cycles, speedup_of sw_cycles 0 = None) /\
  (exists r,
     result_of
       (snd (run (board 2 4294967295) 400
               (main_round sample_A sample_B
                  (zeros16, zeros16, zeros16) (zeros16, zeros16, zeros16))
               accel_reset)) = Some r /\
     hw_cycles r = 0 /\ speedup r = None).
Proof.
  split.
  - intros sw. reflexivity.
  - eexists. split; [vm_compute; reflexivity|]. split; reflexivity.
Qed.

(** With a hardware cycle count other than zero the quotient is the
    integer quotient. *)
Example speedup_example : speedup_of 1295 100 = Some 12.
Proof. reflexivity. Qed.

(** ** The accelerator peripheral *)

Lemma reg_of_accel_reg (off : Z) (i : nat) :
  reg_of (accel_reg off i) = off + Z.of_nat i.
Proof.
  unfold reg_of, accel_reg, word_at.
  replace (MATRIX_ACCEL_BASE + 4 * (off + Z.of_nat i) - MATRIX_ACCEL_BASE)
    with ((off + Z.of_nat i) * 4) by lia.
  apply Z.div_mul. lia.
Qed.

Lemma in_region_hit (off : Z) (i : nat) :
  (i < 16)%nat -> in_region off (off + Z.of_nat i) = true.
Proof.
  intros Hi. unfold in_region. apply andb_true_intro.
  split; [apply Z.leb_le|apply Z.ltb_lt]; lia.
Qed.

Lemma in_region_miss (off off' : Z) (i : nat) :
  (i < 16)%nat -> off' + 16 <= off \/ off + 16 <= off' ->
  in_region off' (off + Z.of_nat i) = false.
Proof.
  intros Hi H. unfold in_region. apply andb_false_iff.
  destruct H; [right; apply Z.ltb_ge|left; apply Z.leb_gt]; lia.
Qed.

Lemma filled_decoded (buf ws : list Z) :
  length buf = 16%nat -> length ws = 16%nat -> filled buf ws = decoded ws.
Proof.
  intros Hb Hw.
  do 16 (destruct buf as [|? buf]; [discriminate Hb|]).
  destruct buf; [|discriminate Hb].
  do 16 (destruct ws as [|? ws]; [discriminate Hw|]).
  destruct ws; [reflexivity|discriminate Hw].
Qed.

Lemma fold_fill16 (g : nat -> Z) (l : list Z) :
  length l = 16%nat ->
  fold_left (fun l i => <[ i := g i ]> l) (seq 0 16) l = map g (seq 0 16).
Proof.
  intros H.
  do 16 (destruct l as [|? l]; [discriminate H|]).
  destruct l; [reflexivity|discriminate H].
Qed.

(** What the peripheral keeps of a stored operand is the operand. *)
Lemma operand_roundtrip (M : list Z) :
  int16_matrix M ->
  map signed16 (map (fun i => to_uint32 (elt M i) mod 2 ^ 16) (seq 0 16)) = M.
Proof.
  intros HM.
  transitivity (map (elt M) (seq 0 16)); [|symmetry; apply length16_elts, HM].
  rewrite List.map_map. apply map_ext_in. intros i Hi. apply in_seq in Hi.
  destruct (sign_extension_of_int16 _ (int16_elt_at M i HM ltac:(lia)))
    as (_ & _ & Hs).
  rewrite <- Hs at 2. unfold signed16. rewrite Z.mod_mod by lia. reflexivity.
Qed.

(** Words of the result regions decode to the values they were made
    from. *)
Lemma decode_words (L : list Z) :
  length L = 16%nat -> Forall in_int32 L ->
  decoded (map (fun i => to_uint32 (elt (map to_uint32 L) i)) (seq 0 16)) = L.
Proof.
  intros H HL.
  transitivity (map (elt L) (seq 0 16)); [|symmetry; apply length16_elts, H].
  unfold decoded. rewrite List.map_map. apply map_ext_in.
  intros i Hi. apply in_seq in Hi.
  assert (Hi' : (i < length L)%nat) by lia.
  destruct (lookup_lt_is_Some_2 L i Hi') as [x Hx].
  assert (Hmap : elt (map to_uint32 L) i = to_uint32 x).
  { unfold elt. rewrite list_lookup_fmap, Hx. reflexivity. }
  rewrite Hmap, (elt_lookup L i x Hx), !to_int32_to_uint32.
  apply to_int32_id. exact (Forall_lookup_1 _ _ _ _ HL Hx).
Qed.

Lemma sw_sum_in_int32 (A B buf : list Z) :
  length buf = 16%nat -> Forall in_int32 (sw_sum_loop A B buf).
Proof.
  intros H. rewrite (sw_sum_loop_cells A B buf H). apply List.Forall_forall.
  intros x Hx. apply List.in_map_iff in Hx. destruct Hx as [i [<- _]].
  apply to_int32_range.
Qed.

Lemma sw_diff_in_int32 (A B buf : list Z) :
  length buf = 16%nat -> Forall in_int32 (sw_diff_loop A B buf).
Proof.
  intros H. rewrite (sw_diff_loop_cells A B buf H). apply List.Forall_forall.
  intros x Hx. apply List.in_map_iff in Hx. destruct Hx as [i [<- _]].
  apply to_int32_range.
Qed.

Lemma sw_prod_in_int32 (A B buf : list Z) :
  length buf = 16%nat -> Forall in_int32 (sw_prod_loop A B buf).
Proof.
  intros H. rewrite (sw_prod_loop_cells A B buf H). apply List.Forall_forall.
  intros x Hx. apply in_flat_map in Hx. destruct Hx as [i [_ Hx]].
  apply List.in_map_iff in Hx. destruct Hx as [j [<- _]].
  rewrite dot_acc_succ. apply to_int32_range.
Qed.

Lemma dev_loads_const (D : device) (f : nat -> Z) (sel : nat -> Z)
    (c lo : nat) (s : dstate D) :
  (forall i, (lo <= i < lo + c)%nat -> dev_load D (f i) s = (sel i, s)) ->
  dev_loads D (map f (seq lo c)) s = (map (fun i => to_uint32 (sel i)) (seq lo c), s).
Proof.
  revert lo. induction c as [|c IH]; intros lo H; [reflexivity|].
  cbn [seq map dev_loads]. rewrite H by lia.
  rewrite IH by (intros i Hi; apply H; lia). reflexivity.
Qed.

Section Peripheral.

Context (latency : nat).

Lemma accel_store_opA (i : nat) (v : Z) (s : accel) :
  (i < 16)%nat ->
  accel_store latency (accel_reg A_OFFSET i) v s =
  Accel (<[ i := v mod 2 ^ 16 ]> (opA s)) (opB s)
        (r_sum s) (r_diff s) (r_prod s) (busy s).
Proof.
  intros Hi. unfold accel_store. rewrite reg_of_accel_reg.
  rewrite (in_region_hit A_OFFSET i Hi). cbv zeta.
  replace (Z.to_nat (A_OFFSET + Z.of_nat i - A_OFFSET)) with i by lia.
  reflexivity.
Qed.

Lemma accel_store_opB (i : nat) (v : Z) (s : accel) :
  (i < 16)%nat ->
  accel_store latency (accel_reg B_OFFSET i) v s =
  Accel (opA s) (<[ i := v mod 2 ^ 16 ]> (opB s))
        (r_sum s) (r_diff s) (r_prod s) (busy s).
Proof.
  intros Hi. unfold accel_store. rewrite reg_of_accel_reg.
  rewrite (in_region_miss B_OFFSET A_OFFSET i Hi) by (unfold A_OFFSET, B_OFFSET; lia).
  rewrite (in_region_hit B_OFFSET i Hi). cbv zeta.
  replace (Z.to_nat (B_OFFSET + Z.of_nat i - B_OFFSET)) with i by lia.
  reflexivity.
Qed.

Lemma accel_stores_A (f : nat -> Z) (c lo : nat) (s : accel) :
  (lo + c <= 16)%nat ->
  dev_stores (accel_device latency)
    (map (fun i => (accel_reg A_OFFSET i, f i)) (seq lo c)) s =
  Accel (fold_left (fun l i => <[ i := f i mod 2 ^ 16 ]> l) (seq lo c) (opA s))
        (opB s) (r_sum s) (r_diff s) (r_prod s) (busy s).
Proof.
  revert lo s. induction c as [|c IH]; intros lo s H.
  - destruct s. reflexivity.
  - cbn [seq map fold_left]. unfold dev_stores in *. cbn [fold_left fst snd].
    change (dev_store (accel_device latency)) with (accel_store latency) in *.
    rewrite accel_store_opA by lia. rewrite IH by lia. reflexivity.
Qed.

Lemma accel_stores_B (f : nat -> Z) (c lo : nat) (s : accel) :
  (lo + c <= 16)%nat ->
  dev_stores (accel_device latency)
    (map (fun i => (accel_reg B_OFFSET i, f i)) (seq lo c)) s =
  Accel (opA s)
        (fold_left (fun l i => <[ i := f i mod 2 ^ 16 ]> l) (seq lo c) (opB s))
        (r_sum s) (r_diff s) (r_prod s) (busy s).
Proof.
  revert lo s. induction c as [|c IH]; intros lo s H.
  - destruct s. reflexivity.
  - cbn [seq map fold_left]. unfold dev_stores in *. cbn [fold_left fst snd].
    change (dev_store (accel_device latency)) with (accel_store latency) in *.
    rewrite accel_store_opB by lia. rewrite IH by lia. reflexivity.
Qed.

Lemma accel_store_control (s : accel) :
  accel_store latency CONTROL_REG 1 s =
  Accel (opA s) (opB s)
        (map to_uint32 (matrix_sum (map signed16 (opA s)) (map signed16 (opB s))))
        (map to_uint32 (matrix_diff (map signed16 (opA s)) (map signed16 (opB s))))
        (map to_uint32 (matrix_product (map signed16 (opA s)) (map signed16 (opB s))))
        (Some latency).
Proof. reflexivity. Qed.

(** The peripheral once the driver has stored the operands and started
    it. *)
Lemma accel_started (A B : list Z) (s : accel) :
  int16_matrix A -> int16_matrix B -> accel_sized s ->
  started (accel_device latency) A B s =
  Accel (map (fun i => to_uint32 (elt A i) mod 2 ^ 16) (seq 0 16))
        (map (fun i => to_uint32 (elt B i) mod 2 ^ 16) (seq 0 16))
        (map to_uint32 (matrix_sum A B))
        (map to_uint32 (matrix_diff A B))
        (map to_uint32 (matrix_product A B))
        (Some latency).
Proof.
  intros HA HB [HsA HsB]. unfold started, operand_stores.
  rewrite (accel_stores_A (fun i => to_uint32 (elt A i)) 16 0 s) by lia.
  rewrite (accel_stores_B (fun i => to_uint32 (elt B i)) 16 0) by lia.
  cbn [opA opB r_sum r_diff r_prod busy].
  rewrite (fold_fill16 (fun i => to_uint32 (elt A i) mod 2 ^ 16) _ HsA).
  rewrite (fold_fill16 (fun i => to_uint32 (elt B i) mod 2 ^ 16) _ HsB).
  change (dev_store (accel_device latency)) with (accel_store latency).
  rewrite accel_store_control. cbn [opA opB].
  rewrite (operand_roundtrip A HA), (operand_roundtrip B HB). reflexivity.
Qed.

Lemma accel_load_status (s : accel) :
  accel_load STATUS_REG s =
  match busy s with
  | None => (0, s)
  | Some O => (1, s)
  | Some (Datatypes.S n) =>
      (0, Accel (opA s) (opB s) (r_sum s) (r_diff s) (r_prod s) (Some n))
  end.
Proof. reflexivity. Qed.

(** A started peripheral answers [k] status reads with 0 and the next
    with 1. *)
Lemma accel_poll (k m : nat) (a b rs rd rp : list Z) :
  run (accel_device latency) (2 * k + 1 + m) poll_status
      (Accel a b rs rd rp (Some k)) =
  (status_reads (replicate k 0 ++ [1]),
   Returned tt (Accel a b rs rd rp (Some O)) m).
Proof.
  induction k as [|k IH].
  - change (2 * 0 + 1 + m)%nat with (Datatypes.S m). rewrite run_poll_step.
    change (dev_load (accel_device latency)) with accel_load.
    rewrite accel_load_status. reflexivity.
  - replace (2 * Datatypes.S k + 1 + m)%nat
      with (Datatypes.S (Datatypes.S (2 * k + 1 + m))) by lia.
    rewrite run_poll_step.
    change (dev_load (accel_device latency)) with accel_load.
    rewrite accel_load_status. cbn [busy fst snd opA opB r_sum r_diff r_prod].
    cbv zeta. change (done_bit (to_uint32 0) =? 0) with true. cbv iota.
    rewrite IH. reflexivity.
Qed.

Lemma accel_load_result (off : Z) (sel : accel -> list Z) (i : nat) (s : accel) :
  (i < 16)%nat ->
  (off = SUM_OFFSET /\ sel = r_sum) \/ (off = DIFF_OFFSET /\ sel = r_diff) \/
  (off = PROD_OFFSET /\ sel = r_prod) ->
  accel_load (accel_reg off i) s = (elt (sel s) i, s).
Proof.
  intros Hi H. unfold accel_load. rewrite reg_of_accel_reg. cbv zeta.
  destruct H as [[-> ->]|[[-> ->]|[-> ->]]].
  - rewrite (in_region_hit SUM_OFFSET i Hi).
    replace (Z.to_nat (SUM_OFFSET + Z.of_nat i - SUM_OFFSET)) with i by lia.
    reflexivity.
  - rewrite (in_region_miss DIFF_OFFSET SUM_OFFSET i Hi)
      by (unfold SUM_OFFSET, DIFF_OFFSET; lia).
    rewrite (in_region_hit DIFF_OFFSET i Hi).
    replace (Z.to_nat (DIFF_OFFSET + Z.of_nat i - DIFF_OFFSET)) with i by lia.
    reflexivity.
  - rewrite (in_region_miss PROD_OFFSET SUM_OFFSET i Hi)
      by (unfold SUM_OFFSET, PROD_OFFSET; lia).
    rewrite (in_region_miss PROD_OFFSET DIFF_OFFSET i Hi)
      by (unfold DIFF_OFFSET, PROD_OFFSET; lia).
    rewrite (in_region_hit PROD_OFFSET i Hi).
    replace (Z.to_nat (PROD_OFFSET + Z.of_nat i - PROD_OFFSET)) with i by lia.
    reflexivity.
Qed.

Lemma accel_loads_region (off : Z) (sel : accel -> list Z) (s : accel) :
  (off = SUM_OFFSET /\ sel = r_sum) \/ (off = DIFF_OFFSET /\ sel = r_diff) \/
  (off = PROD_OFFSET /\ sel = r_prod) ->
  dev_loads (accel_device latency) (region off) s =
  (map (fun i => to_uint32 (elt (sel s) i)) (seq 0 16), s).
Proof.
  intros H. unfold region.
  apply (dev_loads_const (accel_device latency) (accel_reg off)
           (fun i => elt (sel s) i) 16 0 s).
  intros i Hi. apply accel_load_result; [lia|exact H].
Qed.

End Peripheral.

(** ** The driver on the peripheral, against the software engine *)

Lemma read_stage_on_accel (latency : nat) (bufs : list Z * list Z * list Z)
    (s : accel) (n : nat) :
  (48 <= n)%nat ->
  result_of (snd (read_stage (accel_device latency) bufs s n)) =
  Some (filled (fst (fst bufs)) (map (fun i => to_uint32 (elt (r_sum s) i)) (seq 0 16)),
        filled (snd (fst bufs)) (map (fun i => to_uint32 (elt (r_diff s) i)) (seq 0 16)),
        filled (snd bufs) (map (fun i => to_uint32 (elt (r_prod s) i)) (seq 0 16))).
Proof.
  intros Hn. destruct bufs as [[HW_Sum HW_Diff] HW_Prod]. unfold read_stage.
  rewrite (accel_loads_region latency SUM_OFFSET r_sum s) by auto.
  rewrite (accel_loads_region latency DIFF_OFFSET r_diff s) by auto.
  rewrite (accel_loads_region latency PROD_OFFSET r_prod s) by auto.
  unfold straight. rewrite !length_app, !result_reads_length.
  destruct (Nat.leb_spec (16 + (16 + 16)) n) as [_|?]; [|lia].
  reflexivity.
Qed.

(** C9. For operands within the safe input range, on the peripheral that
    computes sum, difference and product as the register map documents
    them, with any latency, the three buffers the driver returns are the
    three buffers the software engine returns. *)
Theorem hardware_results_equal_software (latency : nat)
    (A B HW_Sum HW_Diff HW_Prod SW_Sum SW_Diff SW_Result : list Z)
    (s0 : accel) (fuel : nat) :
  safe_matrix A -> safe_matrix B ->
  length HW_Sum = 16%nat -> length HW_Diff = 16%nat -> length HW_Prod = 16%nat ->
  length SW_Sum = 16%nat -> length SW_Diff = 16%nat -> length SW_Result = 16%nat ->
  accel_sized s0 ->
  (82 + 2 * latency <= fuel)%nat ->
  result_of
    (snd (run (accel_device latency) fuel
            (hardware_matrix_operations A B HW_Sum HW_Diff HW_Prod) s0))
  = Some (software_matrix_operations A B SW_Sum SW_Diff SW_Result).
Proof.
  intros HA HB HhS HhD HhP HsS HsD HsP Hs0 Hfuel.
  pose proof (safe_matrix_int16 A HA) as HA16.
  pose proof (safe_matrix_int16 B HB) as HB16.
  rewrite driver_run. unfold straight. rewrite start_writes_length.
  destruct (Nat.leb_spec 33 fuel) as [_|?]; [|lia]. cbn [and_then].
  change (dstate (accel_device latency)) with accel in *.
  rewrite (accel_started latency A B s0 HA16 HB16 Hs0).
  replace (fuel - 33)%nat
    with (2 * latency + 1 + (fuel - 34 - 2 * latency))%nat by lia.
  rewrite accel_poll. cbn [and_then].
  pose proof (read_stage_on_accel latency (HW_Sum, HW_Diff, HW_Prod)
                (Accel (map (fun i => to_uint32 (elt A i) mod 2 ^ 16) (seq 0 16))
                       (map (fun i => to_uint32 (elt B i) mod 2 ^ 16) (seq 0 16))
                       (map to_uint32 (matrix_sum A B))
                       (map to_uint32 (matrix_diff A B))
                       (map to_uint32 (matrix_product A B))
                       (Some O))
                (fuel - 34 - 2 * latency) ltac:(lia)) as Hread.
  destruct (read_stage _ _ _ _) as [tr o]. cbv beta iota. cbn [snd fst] in *.
  refine (eq_trans Hread _). cbn [r_sum r_diff r_prod fst snd].
  rewrite !filled_decoded by (assumption || reflexivity).
  unfold software_matrix_operations.
  rewrite <- (sw_sum_is_matrix_sum A B SW_Sum HA16 HB16 HsS).
  rewrite <- (sw_diff_is_matrix_diff A B SW_Diff HA16 HB16 HsD).
  rewrite <- (sw_prod_is_matrix_product A B SW_Result HA HB HsP).
  rewrite (decode_words (sw_sum_loop A B SW_Sum)),
          (decode_words (sw_diff_loop A B SW_Diff)),
          (decode_words (sw_prod_loop A B SW_Result)).
  - reflexivity.
  - rewrite (sw_prod_loop_cells A B SW_Result HsP). reflexivity.
  - apply sw_prod_in_int32, HsP.
  - rewrite (sw_diff_loop_cells A B SW_Diff HsD). reflexivity.
  - apply sw_diff_in_int32, HsD.
  - rewrite (sw_sum_loop_cells A B SW_Sum HsS). reflexivity.
  - apply sw_sum_in_int32, HsS.
Qed.

Lemma hardware_results_equal_software_witness :
  result_of
    (snd (run (accel_device 3) 100
            (hardware_matrix_operations sample_A sample_B zeros16 zeros16 zeros16)
            accel_reset))
  = Some (software_matrix_operations sample_A sample_B zeros16 zeros16 zeros16).
Proof.
  apply (hardware_results_equal_software 3 sample_A sample_B
           zeros16 zeros16 zeros16 zeros16 zeros16 zeros16 accel_reset 100).
  - exact sample_A_safe.
  - exact sample_B_safe.
  - reflexivity.
  - reflexivity.
  - reflexivity.
  - reflexivity.
  - reflexivity.
  - reflexivity.
  - split; reflexivity.
  - lia.
Defined.

(** Outside the safe range the exact product need not fit 32 bits: four
    products of -32768 by -32768 add up to 2^32. *)
Example product_outside_safe_range :
  matrix_cell (replicate 16 (-32768)) (replicate 16 (-32768)) 0 0 = 4294967296 /\
  ~ in_int32 4294967296.
Proof. split; [vm_compute; reflexivity|unfold in_int32; lia]. Qed.

(** * Further properties *)

(** ** The software engine on any operands *)

Lemma to_int32_mod (z : Z) : to_int32 z mod 2 ^ 32 = z mod 2 ^ 32.
Proof.
  unfold to_int32. rewrite Zminus_mod_idemp_l. f_equal. lia.
Qed.

Lemma to_int32_congr (x y : Z) :
  x mod 2 ^ 32 = y mod 2 ^ 32 -> to_int32 x = to_int32 y.
Proof.
  intros H. unfold to_int32.
  rewrite <- (Zplus_mod_idemp_l x), <- (Zplus_mod_idemp_l y), H. reflexivity.
Qed.

Lemma to_int32_add (x y : Z) : to_int32 (to_int32 x + y) = to_int32 (x + y).
Proof.
  apply to_int32_congr. rewrite <- Zplus_mod_idemp_l, to_int32_mod.
  apply Zplus_mod_idemp_l.
Qed.

Lemma to_int32_add_r (x y : Z) : to_int32 (x + to_int32 y) = to_int32 (x + y).
Proof.
  apply to_int32_congr. rewrite <- Zplus_mod_idemp_r, to_int32_mod.
  apply Zplus_mod_idemp_r.
Qed.

(** The accumulator is the partial sum modulo 2^32, whatever the
    operands. *)
Lemma dot_acc_wraps (A B : list Z) (i j n : nat) :
  dot_acc A B i j n =
  to_int32 (sigma n (fun k => to_int32 (elt A (i * 4 + k)) *
                              to_int32 (elt B (k * 4 + j)))).
Proof.
  induction n as [|n IH]; [reflexivity|].
  rewrite dot_acc_succ, IH. cbn [sigma]. unfold add32, mul32.
  rewrite to_int32_add, to_int32_add_r. reflexivity.
Qed.

Lemma dot_acc_wraps_int16 (A B : list Z) (i j : nat) :
  int16_matrix A -> int16_matrix B -> (i < 4)%nat -> (j < 4)%nat ->
  dot_acc A B i j 4 = to_int32 (matrix_cell A B i j).
Proof.
  intros HA HB Hi Hj. rewrite dot_acc_wraps. unfold matrix_cell. f_equal.
  apply sigma_ext. intros k Hk.
  rewrite (widen_int16 _ (int16_elt_at A (i * 4 + k) HA ltac:(lia))).
  rewrite (widen_int16 _ (int16_elt_at B (k * 4 + j) HB ltac:(lia))).
  reflexivity.
Qed.

Lemma sw_prod_wraps (A B buf : list Z) :
  int16_matrix A -> int16_matrix B -> length buf = 16%nat ->
  sw_prod_loop A B buf = map to_int32 (matrix_product A B).
Proof.
  intros HA HB H. rewrite (sw_prod_loop_cells A B buf H). unfold matrix_product.
  cbn [flat_map map seq app].
  cellwise ltac:(apply dot_acc_wraps_int16; [assumption|assumption|lia|lia]).
Qed.

(** X1. Each of the three loops writes all sixteen cells of its buffer:
    the outputs have sixteen cells and do not depend on what the buffers
    held before the call, for any operands. *)
Theorem outputs_overwrite_buffers
    (A B S1 D1 R1 S2 D2 R2 : list Z) :
  length S1 = 16%nat -> length D1 = 16%nat -> length R1 = 16%nat ->
  length S2 = 16%nat -> length D2 = 16%nat -> length R2 = 16%nat ->
  software_matrix_operations A B S1 D1 R1 = software_matrix_operations A B S2 D2 R2 /\
  let '(Sum, Diff, Product) := software_matrix_operations A B S1 D1 R1 in
  length Sum = 16%nat /\ length Diff = 16%nat /\ length Product = 16%nat.
Proof.
  intros HS1 HD1 HR1 HS2 HD2 HR2. unfold software_matrix_operations.
  rewrite (sw_sum_loop_cells A B S1 HS1), (sw_sum_loop_cells A B S2 HS2).
  rewrite (sw_diff_loop_cells A B D1 HD1), (sw_diff_loop_cells A B D2 HD2).
  rewrite (sw_prod_loop_cells A B R1 HR1), (sw_prod_loop_cells A B R2 HR2).
  repeat split.
Qed.

Lemma outputs_overwrite_buffers_witness :
  software_matrix_operations sample_A sample_B zeros16 zeros16 zeros16 =
  software_matrix_operations sample_A sample_B count16 identity4 sample_A /\
  let '(Sum, Diff, Product) :=
    software_matrix_operations sample_A sample_B zeros16 zeros16 zeros16 in
  length Sum = 16%nat /\ length Diff = 16%nat /\ length Product = 16%nat.
Proof.
  apply (outputs_overwrite_buffers sample_A sample_B
           zeros16 zeros16 zeros16 count16 identity4 sample_A); reflexivity.
Defined.

Lemma replicate16_int16 (m : Z) : in_int16 m -> int16_matrix (replicate 16 m).
Proof.
  intros H. split; [reflexivity|]. cbn [replicate].
  repeat (apply List.Forall_cons; [exact H|]). apply List.Forall_nil.
Qed.

Lemma elt_replicate16 (m : Z) (i : nat) :
  (i < 16)%nat -> elt (replicate 16 m) i = m.
Proof. intros Hi. do 16 (destruct i as [|i]; [reflexivity|]). lia. Qed.

(** With all elements [m], the accumulator of cell (0,0) after [j] rounds
    is [j] times [m * m], as long as that fits 32 bits. *)
Lemma dot_acc_constant (m : Z) (j : nat) :
  in_int16 m -> (j <= 4)%nat -> in_int32 (Z.of_nat j * (m * m)) ->
  dot_acc (replicate 16 m) (replicate 16 m) 0 0 j = Z.of_nat j * (m * m).
Proof.
  intros Hm. induction j as [|j IH]; intros Hj Hfit; [reflexivity|].
  assert (Hsq : 0 <= m * m <= 1073741824) by (unfold in_int16 in Hm; nia).
  rewrite dot_acc_succ, IH by (unfold in_int32 in *; lia).
  rewrite !elt_replicate16 by lia. rewrite (widen_int16 m Hm).
  unfold mul32, add32. rewrite (to_int32_id (m * m)) by (unfold in_int32; lia).
  rewrite to_int32_id by (unfold in_int32 in *; lia). lia.
Qed.

(** X3. [SAFE_INPUT_MAX] cannot be raised: for every [m] from 23171 up to
    the largest [int16_t], with all elements of both operands equal to
    [m], one of the four additions [sum + a * b] of line 51 for cell (0,0)
    has an exact result outside the [int32_t] range, while the product
    [a * b] and every addition before it are exact and in range. *)
Theorem safe_input_max_is_tight (m : Z) :
  SAFE_INPUT_MAX < m <= 32767 ->
  let M := replicate 16 m in
  exists k : nat,
    (2 <= k < 4)%nat /\
    (forall j : nat, (j <= k)%nat ->
       dot_acc M M 0 0 j = Z.of_nat j * (m * m) /\ in_int32 (dot_acc M M 0 0 j)) /\
    let a := to_int32 (elt M (0 * 4 + k)) in
    let b := to_int32 (elt M (k * 4 + 0)) in
    a = m /\ b = m /\ mul32 a b = m * m /\ in_int32 (a * b) /\
    ~ in_int32 (dot_acc M M 0 0 k + mul32 a b).
Proof.
  intros Hm M. unfold SAFE_INPUT_MAX in Hm.
  assert (Hm16 : in_int16 m) by (unfold in_int16; lia).
  assert (Hsq : 536894241 <= m * m <= 1073676289) by nia.
  assert (Hupto : forall k j : nat,
             (k <= 4)%nat -> in_int32 (Z.of_nat k * (m * m)) -> (j <= k)%nat ->
             dot_acc M M 0 0 j = Z.of_nat j * (m * m) /\ in_int32 (dot_acc M M 0 0 j)).
  { intros k j Hk Hfit Hj.
    assert (Hfitj : in_int32 (Z.of_nat j * (m * m))) by (unfold in_int32 in *; nia).
    subst M. rewrite (dot_acc_constant m j Hm16 ltac:(lia) Hfitj).
    split; [reflexivity|exact Hfitj]. }
  assert (Hop : forall k : nat, (k < 4)%nat ->
             let a := to_int32 (elt M (0 * 4 + k)) in
             let b := to_int32 (elt M (k * 4 + 0)) in
             a = m /\ b = m /\ mul32 a b = m * m /\ in_int32 (a * b)).
  { intros k Hk a b. subst a b M. rewrite !elt_replicate16 by lia.
    rewrite (widen_int16 m Hm16). unfold mul32.
    rewrite to_int32_id by (unfold in_int32; lia).
    repeat split; unfold in_int32; lia. }
  destruct (Z_le_gt_dec (3 * (m * m)) 2147483647) as [H3|H3].
  - exists 3%nat. split; [lia|]. split.
    + intros j Hj. apply (Hupto 3%nat j); [lia| |exact Hj].
      unfold in_int32. lia.
    + destruct (Hop 3%nat ltac:(lia)) as (Ha & Hb & Hmul & Hin). cbv zeta.
      split; [exact Ha|]. split; [exact Hb|]. split; [exact Hmul|].
      split; [exact Hin|]. rewrite Hmul.
      destruct (Hupto 3%nat 3%nat ltac:(lia) ltac:(unfold in_int32; lia) ltac:(lia))
        as [-> _].
      unfold in_int32. lia.
  - exists 2%nat. split; [lia|]. split.
    + intros j Hj. apply (Hupto 2%nat j); [lia| |exact Hj].
      unfold in_int32. lia.
    + destruct (Hop 2%nat ltac:(lia)) as (Ha & Hb & Hmul & Hin). cbv zeta.
      split; [exact Ha|]. split; [exact Hb|]. split; [exact Hmul|].
      split; [exact Hin|]. rewrite Hmul.
      destruct (Hupto 2%nat 2%nat ltac:(lia) ltac:(unfold in_int32; lia) ltac:(lia))
        as [-> _].
      unfold in_int32. lia.
Qed.

Lemma safe_input_max_is_tight_witness :
  let M := replicate 16 23171 in
  exists k : nat,
    (2 <= k < 4)%nat /\
    (forall j : nat, (j <= k)%nat ->
       dot_acc M M 0 0 j = Z.of_nat j * (23171 * 23171) /\
       in_int32 (dot_acc M M 0 0 j)) /\
    let a := to_int32 (elt M (0 * 4 + k)) in
    let b := to_int32 (elt M (k * 4 + 0)) in
    a = 23171 /\ b = 23171 /\ mul32 a b = 23171 * 23171 /\ in_int32 (a * b) /\
    ~ in_int32 (dot_acc M M 0 0 k + mul32 a b).
Proof.
  apply (safe_input_max_is_tight 23171). unfold SAFE_INPUT_MAX. lia.
Defined.

Lemma elt_zeros16 (i : nat) : elt zeros16 i = 0.
Proof. do 16 (destruct i as [|i]; [reflexivity|]). reflexivity. Qed.

Lemma map_elt_seq16 (M : list Z) (f : nat -> Z) :
  length M = 16%nat -> (forall i, (i < 16)%nat -> f i = elt M i) ->
  map f (seq 0 16) = M.
Proof.
  intros HM H.
  transitivity (map (elt M) (seq 0 16)); [|symmetry; apply length16_elts, HM].
  apply map_ext_in. intros i Hi. apply in_seq in Hi. apply H. lia.
Qed.

(** X4. For operands of sixteen [int16_t]: the sum does not depend on the
    order of the operands, the difference changes sign when they are
    swapped, and sum minus difference is twice the second operand. *)
Theorem sum_commutes_diff_anticommutes
    (A B SW_Sum SW_Diff SW_Result : list Z) :
  int16_matrix A -> int16_matrix B ->
  length SW_Sum = 16%nat -> length SW_Diff = 16%nat ->
  let '(Sum, Diff, _) := software_matrix_operations A B SW_Sum SW_Diff SW_Result in
  let '(Sum', Diff', _) := software_matrix_operations B A SW_Sum SW_Diff SW_Result in
  Sum = Sum' /\
  (forall i, (i < 16)%nat -> elt Diff i = - elt Diff' i) /\
  (forall i, (i < 16)%nat -> elt Sum i - elt Diff i = 2 * elt B i).
Proof.
  intros HA HB HS HD. cbn [software_matrix_operations].
  rewrite (sw_sum_is_matrix_sum A B SW_Sum HA HB HS).
  rewrite (sw_sum_is_matrix_sum B A SW_Sum HB HA HS).
  rewrite (sw_diff_is_matrix_diff A B SW_Diff HA HB HD).
  rewrite (sw_diff_is_matrix_diff B A SW_Diff HB HA HD).
  unfold matrix_sum, matrix_diff. split; [|split].
  - apply map_ext. intros i. lia.
  - intros i Hi. rewrite !elt_map_seq16 by exact Hi. lia.
  - intros i Hi. rewrite !elt_map_seq16 by exact Hi. lia.
Qed.

Lemma sum_commutes_diff_anticommutes_witness :
  let '(Sum, Diff, _) :=
    software_matrix_operations sample_A sample_B zeros16 zeros16 zeros16 in
  let '(Sum', Diff', _) :=
    software_matrix_operations sample_B sample_A zeros16 zeros16 zeros16 in
  Sum = Sum' /\
  (forall i, (i < 16)%nat -> elt Diff i = - elt Diff' i) /\
  (forall i, (i < 16)%nat -> elt Sum i - elt Diff i = 2 * elt sample_B i).
Proof.
  apply (sum_commutes_diff_anticommutes sample_A sample_B zeros16 zeros16 zeros16).
  - exact sample_A_int16.
  - exact sample_B_int16.
  - reflexivity.
  - reflexivity.
Defined.

Lemma zeros16_int16 : int16_matrix zeros16.
Proof. apply replicate16_int16. unfold in_int16. lia. Qed.

Lemma matrix_product_zero_r (A : list Z) :
  map to_int32 (matrix_product A zeros16) = zeros16.
Proof.
  unfold matrix_product, matrix_cell. cbn [flat_map map seq app sigma].
  rewrite !elt_zeros16. unfold zeros16. cbn [replicate].
  cellwise ltac:(transitivity (to_int32 0); [apply f_equal; ring|reflexivity]).
Qed.

Lemma matrix_product_zero_l (B : list Z) :
  map to_int32 (matrix_product zeros16 B) = zeros16.
Proof.
  unfold matrix_product, matrix_cell. cbn [flat_map map seq app sigma].
  rewrite !elt_zeros16. unfold zeros16. cbn [replicate].
  cellwise ltac:(transitivity (to_int32 0); [apply f_equal; ring|reflexivity]).
Qed.

(** X5. For any operand [A] of sixteen [int16_t], also outside the safe
    range: adding or subtracting the zero matrix returns [A], subtracting
    [A] from itself returns the zero matrix, and the product with the zero
    matrix on either side is the zero matrix. *)
Theorem zero_matrix_laws (A SW_Sum SW_Diff SW_Result : list Z) :
  int16_matrix A ->
  length SW_Sum = 16%nat -> length SW_Diff = 16%nat -> length SW_Result = 16%nat ->
  software_matrix_operations A zeros16 SW_Sum SW_Diff SW_Result = (A, A, zeros16) /\
  snd (software_matrix_operations zeros16 A SW_Sum SW_Diff SW_Result) = zeros16 /\
  snd (fst (software_matrix_operations A A SW_Sum SW_Diff SW_Result)) = zeros16.
Proof.
  intros HA HS HD HR. unfold software_matrix_operations. cbn [fst snd].
  rewrite (sw_sum_is_matrix_sum A zeros16 SW_Sum HA zeros16_int16 HS).
  rewrite (sw_diff_is_matrix_diff A zeros16 SW_Diff HA zeros16_int16 HD).
  rewrite (sw_diff_is_matrix_diff A A SW_Diff HA HA HD).
  rewrite (sw_prod_wraps A zeros16 SW_Result HA zeros16_int16 HR).
  rewrite (sw_prod_wraps zeros16 A SW_Result zeros16_int16 HA HR).
  rewrite matrix_product_zero_r, matrix_product_zero_l.
  unfold matrix_sum, matrix_diff.
  rewrite (map_elt_seq16 A (fun i => elt A i + elt zeros16 i) (proj1 HA))
    by (intros i _; rewrite elt_zeros16; lia).
  rewrite (map_elt_seq16 A (fun i => elt A i - elt zeros16 i) (proj1 HA))
    by (intros i _; rewrite elt_zeros16; lia).
  rewrite (map_elt_seq16 zeros16 (fun i => elt A i - elt A i) eq_refl)
    by (intros i _; rewrite elt_zeros16; lia).
  repeat split.
Qed.

Lemma zero_matrix_laws_witness :
  let A := replicate 16 (-32768) in
  software_matrix_operations A zeros16 zeros16 zeros16 zeros16 = (A, A, zeros16) /\
  snd (software_matrix_operations zeros16 A zeros16 zeros16 zeros16) = zeros16 /\
  snd (fst (software_matrix_operations A A zeros16 zeros16 zeros16)) = zeros16.
Proof.
  apply (zero_matrix_laws (replicate 16 (-32768)) zeros16 zeros16 zeros16).
  - apply replicate16_int16. unfold in_int16. lia.
  - reflexivity.
  - reflexivity.
  - reflexivity.
Defined.

Lemma transpose_safe (M : list Z) : safe_matrix M -> safe_matrix (transpose M).
Proof.
  intros HM. split; [reflexivity|].
  unfold transpose. cbn [flat_map map seq app].
  repeat (apply List.Forall_cons; [apply (safe_elt_at M _ HM); lia|]).
  apply List.Forall_nil.
Qed.

Lemma matrix_product_transpose (A B : list Z) :
  length A = 16%nat -> length B = 16%nat ->
  matrix_product (transpose B) (transpose A) = transpose (matrix_product A B).
Proof.
  intros HA HB.
  do 16 (destruct A as [|? A]; [discriminate HA|]).
  destruct A; [|discriminate HA].
  do 16 (destruct B as [|? B]; [discriminate HB|]).
  destruct B; [|discriminate HB].
  unfold matrix_product, matrix_cell, transpose.
  cbn [flat_map map seq app sigma elt lookup list_lookup default from_option
       Nat.mul Nat.add].
  unfold id. cellwise ltac:(ring).
Qed.

(** X6. For operands within the safe input range the product follows the
    row and column indexing of a matrix product: the product of the
    transposes, taken in the other order, is the transpose of the
    product. *)
Theorem product_of_transposes (A B SW_Sum SW_Diff SW_Result : list Z) :
  safe_matrix A -> safe_matrix B -> length SW_Result = 16%nat ->
  snd (software_matrix_operations (transpose B) (transpose A) SW_Sum SW_Diff SW_Result)
  = transpose (snd (software_matrix_operations A B SW_Sum SW_Diff SW_Result)).
Proof.
  intros HA HB HR. cbn [software_matrix_operations snd].
  rewrite (sw_prod_is_matrix_product _ _ _ (transpose_safe B HB) (transpose_safe A HA) HR).
  rewrite (sw_prod_is_matrix_product A B _ HA HB HR).
  apply matrix_product_transpose; [apply HA|apply HB].
Qed.

Lemma product_of_transposes_witness :
  snd (software_matrix_operations (transpose sample_B) (transpose sample_A)
         zeros16 zeros16 zeros16)
  = transpose (snd (software_matrix_operations sample_A sample_B
                      zeros16 zeros16 zeros16)).
Proof.
  apply (product_of_transposes sample_A sample_B zeros16 zeros16 zeros16).
  - exact sample_A_safe.
  - exact sample_B_safe.
  - reflexivity.
Defined.

(** ** The driver on any device *)

Lemma Forall_prefix {X : Type} (P : X -> Prop) (l l' : list X) :
  l `prefix_of` l' -> Forall P l' -> Forall P l.
Proof. intros [k ->] H. apply Forall_app in H. apply H. Qed.

Lemma operand_writes_driver_access (off : Z) (M : list Z) :
  off = A_OFFSET \/ off = B_OFFSET ->
  Forall (fun a => driver_access a /\ in_accel (access_addr a) = true)
         (operand_writes off M).
Proof.
  intros H. unfold operand_writes, operand_stores. cbn [map seq fst snd].
  destruct H as [-> | ->];
    repeat (apply List.Forall_cons;
            [split; [split; [left; reflexivity|apply to_uint32_range]|reflexivity]|]);
    apply List.Forall_nil.
Qed.

Lemma result_reads_driver_access (off : Z) (ws : list Z) :
  off = SUM_OFFSET \/ off = DIFF_OFFSET \/ off = PROD_OFFSET ->
  Forall (fun a => driver_access a /\ in_accel (access_addr a) = true)
         (result_reads off ws).
Proof.
  intros H. unfold result_reads. cbn [map seq].
  destruct H as [-> | [-> | ->]];
    repeat (apply List.Forall_cons; [split; [right; reflexivity|reflexivity]|]);
    apply List.Forall_nil.
Qed.

Lemma protocol_trace_driver_access (A B polls : list Z) (last : Z) (s df p : list Z) :
  Forall (fun a => driver_access a /\ in_accel (access_addr a) = true)
         (protocol_trace A B polls last s df p).
Proof.
  unfold protocol_trace, start_writes. rewrite !Forall_app. repeat split.
  - apply operand_writes_driver_access. auto.
  - apply operand_writes_driver_access. auto.
  - apply List.Forall_cons; [|apply List.Forall_nil].
    split; [split; [right; reflexivity|unfold in_uint32; lia]|reflexivity].
  - apply List.Forall_forall. intros a Ha. unfold status_reads in Ha.
    apply List.in_map_iff in Ha. destruct Ha as [w [<- _]].
    split; [left; reflexivity|reflexivity].
  - apply List.Forall_cons; [|apply List.Forall_nil].
    split; [left; reflexivity|reflexivity].
  - apply result_reads_driver_access. auto.
  - apply result_reads_driver_access. auto.
  - apply result_reads_driver_access. auto.
Qed.

(** X7. Whatever the device answers and however long the call is
    observed, the driver stores only 32-bit words and only to the
    thirty-two operand registers and the control register, and loads only
    from the status register and the result registers: every address is
    inside the window of the accelerator, none is a register of the
    timer. *)
Theorem driver_stays_in_its_window (D : device)
    (A B HW_Sum HW_Diff HW_Prod : list Z) (d : dstate D) (fuel : nat) :
  let tr := fst (run D fuel (hardware_matrix_operations A B HW_Sum HW_Diff HW_Prod) d) in
  Forall (fun a => driver_access a /\ in_accel (access_addr a) = true) tr /\
  (forall a k, In a tr -> 0 <= k <= 5 -> access_addr a <> word_at TIMER_BASE k).
Proof.
  intros tr.
  destruct (driver_shape D A B HW_Sum HW_Diff HW_Prod d fuel)
    as (polls & last & s & df & p & _ & _ & Hpre & _).
  fold tr in Hpre.
  assert (H : Forall (fun a => driver_access a /\ in_accel (access_addr a) = true) tr).
  { exact (Forall_prefix _ _ _ Hpre (protocol_trace_driver_access A B polls last s df p)). }
  split; [exact H|].
  intros a k Ha Hk Heq. rewrite List.Forall_forall in H.
  destruct (H a Ha) as [_ Hin]. rewrite Heq in Hin.
  unfold in_accel, word_at, MATRIX_ACCEL_BASE, TIMER_BASE in Hin.
  apply andb_true_iff in Hin. destruct Hin as [_ Hlt]. apply Z.ltb_lt in Hlt. lia.
Qed.

Lemma dev_loads_uint32 (D : device) (addrs : list Z) (d : dstate D) :
  Forall in_uint32 (fst (dev_loads D addrs d)).
Proof.
  revert d. induction addrs as [|a addrs IH]; intros d; [apply List.Forall_nil|].
  cbn [dev_loads]. destruct (dev_load D a d) as [v d'].
  specialize (IH d'). destruct (dev_loads D addrs d') as [vs d''].
  cbn [fst] in *. apply List.Forall_cons; [apply to_uint32_range|exact IH].
Qed.

Lemma signed32_spec (w : Z) : in_uint32 w -> to_int32 w = signed32 w.
Proof.
  unfold in_uint32, to_int32, signed32. intros Hw.
  destruct (Z.ltb_spec w (2 ^ 31)).
  - rewrite Z.mod_small by lia. lia.
  - rewrite <- (Z.mod_unique_pos (w + 2 ^ 31) (2 ^ 32) 1 (w - 2 ^ 31)); lia.
Qed.

Lemma elt_decoded (ws : list Z) (i : nat) :
  (i < length ws)%nat -> elt (decoded ws) i = to_int32 (elt ws i).
Proof.
  intros Hi. destruct (lookup_lt_is_Some_2 ws i Hi) as [w Hw].
  unfold elt, decoded. rewrite list_lookup_fmap, Hw. reflexivity.
Qed.

(** A call that returned: its trace and its result. *)
Lemma driver_returned (D : device) (A B HW_Sum HW_Diff HW_Prod : list Z)
    (d : dstate D) (fuel : nat) :
  returned (snd (run D fuel (hardware_matrix_operations A B HW_Sum HW_Diff HW_Prod) d)) ->
  exists polls last s df p,
    Forall (fun w => done_bit w = 0) polls /\ done_bit last = 1 /\
    (length s = 16%nat /\ Forall in_uint32 s) /\
    (length df = 16%nat /\ Forall in_uint32 df) /\
    (length p = 16%nat /\ Forall in_uint32 p) /\
    fst (run D fuel (hardware_matrix_operations A B HW_Sum HW_Diff HW_Prod) d)
      = protocol_trace A B polls last s df p /\
    result_of (snd (run D fuel (hardware_matrix_operations A B HW_Sum HW_Diff HW_Prod) d))
      = Some (filled HW_Sum s, filled HW_Diff df, filled HW_Prod p).
Proof.
  rewrite driver_run. unfold straight. rewrite start_writes_length.
  destruct (Nat.leb_spec 33 fuel) as [Hle|Hlt]; cbn [and_then];
    [|intros []].
  rewrite firstn_all2 by (rewrite start_writes_length; exact Hle).
  destruct (run_poll_cases D (fuel - 33) (started D A B d))
    as [polls [Hpolls [Hrun|(last & d4 & m & Hlast & Hrun)]]];
    rewrite Hrun; cbn [and_then]; [intros []|].
  unfold read_stage.
  pose proof (dev_loads_length D (region SUM_OFFSET) d4) as L1.
  pose proof (dev_loads_uint32 D (region SUM_OFFSET) d4) as U1.
  destruct (dev_loads D (region SUM_OFFSET) d4) as [s d5].
  pose proof (dev_loads_length D (region DIFF_OFFSET) d5) as L2.
  pose proof (dev_loads_uint32 D (region DIFF_OFFSET) d5) as U2.
  destruct (dev_loads D (region DIFF_OFFSET) d5) as [df d6].
  pose proof (dev_loads_length D (region PROD_OFFSET) d6) as L3.
  pose proof (dev_loads_uint32 D (region PROD_OFFSET) d6) as U3.
  destruct (dev_loads D (region PROD_OFFSET) d6) as [p d7].
  cbn [fst] in *. unfold straight.
  set (reads := result_reads SUM_OFFSET s ++ result_reads DIFF_OFFSET df ++
                result_reads PROD_OFFSET p).
  cbn [fst snd].
  destruct (Nat.leb_spec (length reads) m) as [Hm|Hm]; [|intros []].
  intros _. exists polls, last, s, df, p.
  split; [exact Hpolls|]. split; [exact Hlast|].
  split; [split; [exact L1|exact U1]|].
  split; [split; [exact L2|exact U2]|].
  split; [split; [exact L3|exact U3]|].
  split; [|reflexivity].
  rewrite firstn_all2 by exact Hm.
  unfold protocol_trace. rewrite <- !app_assoc. reflexivity.
Qed.

(** X8. A call of the driver that returned, on any device, with result
    buffers of sixteen cells: the three buffers hold exactly the
    forty-eight words loaded from the result regions, each read as a
    32-bit two's-complement number (a word of 2^31 or more is the negative
    number 2^32 less), whatever the buffers held before and whatever the
    operands were. *)
Theorem driver_returns_decoded_words (D : device)
    (A B HW_Sum HW_Diff HW_Prod : list Z) (d : dstate D) (fuel : nat) :
  length HW_Sum = 16%nat -> length HW_Diff = 16%nat -> length HW_Prod = 16%nat ->
  returned (snd (run D fuel (hardware_matrix_operations A B HW_Sum HW_Diff HW_Prod) d)) ->
  exists polls last s df p,
    fst (run D fuel (hardware_matrix_operations A B HW_Sum HW_Diff HW_Prod) d)
      = protocol_trace A B polls last s df p /\
    result_of (snd (run D fuel (hardware_matrix_operations A B HW_Sum HW_Diff HW_Prod) d))
      = Some (map signed32 s, map signed32 df, map signed32 p) /\
    length s = 16%nat /\ length df = 16%nat /\ length p = 16%nat.
Proof.
  intros HS HD HP Hret.
  destruct (driver_returned D A B HW_Sum HW_Diff HW_Prod d fuel Hret)
    as (polls & last & s & df & p & _ & _ & [L1 U1] & [L2 U2] & [L3 U3] & Htr & Hres).
  exists polls, last, s, df, p. split; [exact Htr|].
  split; [|auto]. rewrite Hres.
  rewrite (filled_decoded HW_Sum s HS L1), (filled_decoded HW_Diff df HD L2),
          (filled_decoded HW_Prod p HP L3).
  unfold decoded.
  assert (Hmap : forall ws, Forall in_uint32 ws -> map to_int32 ws = map signed32 ws).
  { intros ws Hws. apply map_ext_in. intros w Hw.
    rewrite List.Forall_forall in Hws. apply signed32_spec, Hws, Hw. }
  rewrite (Hmap s U1), (Hmap df U2), (Hmap p U3). reflexivity.
Qed.

Lemma driver_returns_decoded_words_witness :
  exists polls last s df p,
    fst (run (constant_word 4294967295) 100
           (hardware_matrix_operations sample_A sample_B zeros16 zeros16 zeros16) tt)
      = protocol_trace sample_A sample_B polls last s df p /\
    result_of
      (snd (run (constant_word 4294967295) 100
              (hardware_matrix_operations sample_A sample_B zeros16 zeros16 zeros16) tt))
      = Some (map signed32 s, map signed32 df, map signed32 p) /\
    length s = 16%nat /\ length df = 16%nat /\ length p = 16%nat.
Proof.
  apply (driver_returns_decoded_words (constant_word 4294967295)
           sample_A sample_B zeros16 zeros16 zeros16 tt 100).
  - reflexivity.
  - reflexivity.
  - reflexivity.
  - vm_compute. exact I.
Defined.

(** On a bus that reads all ones every result is -1. *)
Example all_ones_bus :
  result_of
    (snd (run (constant_word 4294967295) 100
            (hardware_matrix_operations sample_A sample_B zeros16 zeros16 zeros16) tt))
  = Some (replicate 16 (-1), replicate 16 (-1), replicate 16 (-1)).
Proof. vm_compute. reflexivity. Qed.

(** ** The timer and the cycle counts *)

Lemma straight_timer_start (D : device) (d : dstate D) (n : nat) :
  run D n timer_start d = straight timer_start_trace tt (timer_started D d) n.
Proof.
  revert n. unfold timer_start, timer_start_trace, timer_started.
  refine (straight_bind D _ _ d _ _ [_] [_; _] tt tt
            (fun m => straight_store D _ _ m d) _).
  refine (straight_bind D _ _ _ _ _ [_] [_] tt tt
            (fun m => straight_store D _ _ m _) _).
  intros m. apply straight_store.
Qed.

Lemma straight_stop (D : device) (d : dstate D) (n : nat) :
  run D n timer_stop_and_read d =
  straight (timer_stop_trace (stop_hi D d) (stop_lo D d))
           (cycles_of (stop_hi D d) (stop_lo D d)) (stop_end D d) n.
Proof. exact (straight_timer_stop_and_read D d n). Qed.

(** X9. [timer_start] makes three stores and no load, on any device: the
    period registers get 0xFFFF, low half first, and only then the control
    register gets 4, which has the start bit (bit 2) set and the stop bit
    (bit 3) clear; three steps are enough for it to return. *)
Theorem timer_start_sequence (D : device) (d : dstate D) (fuel : nat) :
  run D fuel timer_start d =
    (firstn fuel [Wr (word_at TIMER_BASE 2) 65535; Wr (word_at TIMER_BASE 3) 65535;
                  Wr (word_at TIMER_BASE 1) 4],
     if (3 <=? fuel)%nat then Returned tt (timer_started D d) (fuel - 3) else Running) /\
  Z.testbit 4 2 = true /\ Z.testbit 4 3 = false /\
  Z.lor (Z.shiftl 65535 16) 65535 = 4294967295.
Proof.
  split; [|repeat split].
  rewrite straight_timer_start. reflexivity.
Qed.

Lemma ushl32_16 (hi : Z) : ushl32 hi 16 = (hi mod 2 ^ 16) * 2 ^ 16.
Proof.
  unfold ushl32, to_uint32. rewrite Z.shiftl_mul_pow2 by lia.
  change (2 ^ 32) with (2 ^ 16 * 2 ^ 16).
  rewrite Z.mul_mod_distr_r by lia. reflexivity.
Qed.

(** X10. In the count formed on lines 199 and 213 the shift keeps only the
    low 16 bits of the high word read, while the low word read is or-ed in
    whole: a low word below 2^16 gives [(hi mod 2^16) * 2^16 + lo], and a
    low word with higher bits set puts them into the upper half of the
    count. *)
Theorem count_keeps_low_half_of_high_word (hi lo : Z) :
  0 <= lo ->
  count_of hi lo = Z.lor ((hi mod 2 ^ 16) * 2 ^ 16) lo /\
  count_of hi lo = count_of (hi mod 2 ^ 16) lo /\
  count_of 0 lo = lo /\
  (lo < 2 ^ 16 -> count_of hi lo = (hi mod 2 ^ 16) * 2 ^ 16 + lo).
Proof.
  intros Hlo. unfold count_of, uor32. rewrite !ushl32_16.
  rewrite Z.mod_mod by lia. repeat split.
  intros Hlt. apply lor_high_low; [|lia].
  pose proof (Z.mod_pos_bound hi (2 ^ 16) ltac:(lia)). lia.
Qed.

Lemma count_keeps_low_half_of_high_word_witness :
  count_of 4294967295 64240 = Z.lor ((4294967295 mod 2 ^ 16) * 2 ^ 16) 64240 /\
  count_of 4294967295 64240 = count_of (4294967295 mod 2 ^ 16) 64240 /\
  count_of 0 64240 = 64240 /\
  (64240 < 2 ^ 16 ->
   count_of 4294967295 64240 = (4294967295 mod 2 ^ 16) * 2 ^ 16 + 64240).
Proof.
  apply (count_keeps_low_half_of_high_word 4294967295 64240). lia.
Defined.

Lemma cycles_of_spec (hi lo : Z) :
  in_uint32 lo ->
  in_uint32 (cycles_of hi lo) /\ cycles_of hi lo = 4294967295 - count_of hi lo.
Proof.
  intros Hlo. pose proof (count_of_uint32 hi lo Hlo) as Hc.
  unfold cycles_of, usub32, to_uint32, in_uint32 in *.
  rewrite Z.mod_small by lia. lia.
Qed.

(** X11. For two count words in the 32-bit range the cycle count never
    wraps: it is 0xFFFFFFFF minus the count, between 0 and 0xFFFFFFFF, it
    is zero exactly when the count is 0xFFFFFFFF, and a smaller latched
    count gives a larger cycle count. *)
Theorem cycle_count_is_distance_from_all_ones (hi lo hi' lo' : Z) :
  in_uint32 lo -> in_uint32 lo' ->
  in_uint32 (cycles_of hi lo) /\
  cycles_of hi lo + count_of hi lo = 4294967295 /\
  (cycles_of hi lo = 0 <-> count_of hi lo = 4294967295) /\
  (count_of hi' lo' <= count_of hi lo -> cycles_of hi lo <= cycles_of hi' lo').
Proof.
  intros Hlo Hlo'.
  destruct (cycles_of_spec hi lo Hlo) as [Hr He].
  destruct (cycles_of_spec hi' lo' Hlo') as [Hr' He'].
  split; [exact Hr|]. rewrite He, He'. repeat split; lia.
Qed.

Lemma cycle_count_is_distance_from_all_ones_witness :
  in_uint32 (cycles_of 65535 64240) /\
  cycles_of 65535 64240 + count_of 65535 64240 = 4294967295 /\
  (cycles_of 65535 64240 = 0 <-> count_of 65535 64240 = 4294967295) /\
  (count_of 65535 100 <= count_of 65535 64240 ->
   cycles_of 65535 64240 <= cycles_of 65535 100).
Proof.
  apply (cycle_count_is_distance_from_all_ones 65535 64240 65535 100);
    unfold in_uint32; lia.
Defined.

(** ** The speedup *)

(** X12. For cycle counts in the 32-bit range, with a hardware count of
    at least 2 or a software count below 2^31, the speedup is the
    truncated quotient: not negative, [q * hw <= sw < (q + 1) * hw], and 0
    when the software count is the smaller one. *)
Theorem speedup_is_truncated_quotient (sw hw : Z) :
  in_uint32 sw -> in_uint32 hw -> hw <> 0 -> 2 <= hw \/ sw < 2 ^ 31 ->
  exists q,
    speedup_of sw hw = Some q /\ q = sw / hw /\
    0 <= q /\ q * hw <= sw < (q + 1) * hw /\
    (sw < hw -> q = 0).
Proof.
  unfold in_uint32. intros Hsw Hhw Hnz Hsmall.
  assert (Hpos : 0 < hw) by lia.
  pose proof (Z.mul_div_le sw hw Hpos) as Hle.
  pose proof (Z.mul_succ_div_gt sw hw Hpos) as Hgt.
  assert (H0 : 0 <= sw / hw) by (apply Z.div_pos; lia).
  assert (Hq : sw / hw < 2 ^ 31) by (destruct Hsmall; nia).
  exists (sw / hw). unfold speedup_of, udiv32.
  destruct (Z.eqb_spec hw 0) as [|_]; [contradiction|].
  cbn [fmap option_fmap option_map].
  rewrite to_int32_id by (unfold in_int32; lia).
  repeat split; try lia.
  intros Hlt. apply Z.div_small. lia.
Qed.

Lemma speedup_is_truncated_quotient_witness :
  exists q,
    speedup_of 1295 100 = Some q /\ q = 1295 / 100 /\
    0 <= q /\ q * 100 <= 1295 < (q + 1) * 100 /\
    (1295 < 100 -> q = 0).
Proof.
  apply (speedup_is_truncated_quotient 1295 100); unfold in_uint32; lia.
Defined.

(** X13. With a hardware count of 1 and a software count of 2^31 or more
    the quotient does not fit [int]: the speedup comes out as the software
    count minus 2^32, a negative number. *)
Theorem speedup_wraps_negative (sw : Z) :
  2 ^ 31 <= sw <= 4294967295 ->
  speedup_of sw 1 = Some (sw - 2 ^ 32) /\ sw - 2 ^ 32 < 0.
Proof.
  intros Hsw. split; [|lia]. unfold speedup_of, udiv32.
  cbn [Z.eqb fmap option_fmap option_map]. rewrite Z.div_1_r.
  rewrite (signed32_spec sw) by (unfold in_uint32; lia).
  unfold signed32. destruct (Z.ltb_spec sw (2 ^ 31)); [lia|reflexivity].
Qed.

Lemma speedup_wraps_negative_witness :
  speedup_of 3000000000 1 = Some (3000000000 - 2 ^ 32) /\ 3000000000 - 2 ^ 32 < 0.
Proof. apply (speedup_wraps_negative 3000000000). lia. Defined.

(** ** A round of [main] *)

Lemma and_then_assoc {R S T St : Type} (x : list access * outcome R St)
    (f : R -> St -> nat -> list access * outcome S St)
    (g : S -> St -> nat -> list access * outcome T St) :
  and_then (and_then x f) g = and_then x (fun r d m => and_then (f r d m) g).
Proof.
  destruct x as [tr [r d m|]]; cbn [and_then]; [|reflexivity].
  destruct (f r d m) as [tr' [r' d' m'|]]; cbn [and_then]; [|reflexivity].
  destruct (g r' d' m') as [tr'' o]. rewrite app_assoc. reflexivity.
Qed.

Section Round.

Context (D : device).

(** The second read-back and the report, after the driver returned [hw]. *)
Lemma straight_report (sw hw : list Z * list Z * list Z) (c1 : Z)
    (d : dstate D) (n : nat) :
  run D n
    (hw_cycles <- timer_stop_and_read ;;
     Ret (Report sw hw c1 hw_cycles (speedup_of c1 hw_cycles))) d =
  straight (timer_stop_trace (stop_hi D d) (stop_lo D d))
    (Report sw hw c1 (cycles_of (stop_hi D d) (stop_lo D d))
       (speedup_of c1 (cycles_of (stop_hi D d) (stop_lo D d))))
    (stop_end D d) n.
Proof.
  rewrite <- (app_nil_r (timer_stop_trace (stop_hi D d) (stop_lo D d))).
  revert n.
  refine (straight_bind D _ _ d _ _ _ [] _ _ (fun m => straight_stop D d m) _).
  intros m. apply straight_ret.
Qed.

(** The accelerator call followed by the rest of the round. *)
Lemma run_driver_then {S : Type} (A B HW_Sum HW_Diff HW_Prod : list Z)
    (k : list Z * list Z * list Z -> itree busE S) (d : dstate D) (n : nat) :
  run D n (ITree.bind (hardware_matrix_operations A B HW_Sum HW_Diff HW_Prod) k) d =
  and_then (straight (start_writes A B) tt (started D A B d) n)
    (fun _ d3 n3 =>
       and_then (run D n3 poll_status d3)
         (fun _ d4 n4 =>
            and_then (read_stage D (HW_Sum, HW_Diff, HW_Prod) d4 n4)
              (fun hw d5 n5 => run D n5 (k hw) d5))).
Proof.
  rewrite run_bind, driver_run, and_then_assoc.
  apply and_then_ext. intros _ d3 n3. apply and_then_assoc.
Qed.

Lemma main_round_run (A B SW_Sum SW_Diff SW_Prod HW_Sum HW_Diff HW_Prod : list Z)
    (d : dstate D) (n : nat) :
  let d1 := timer_started D d in
  let hi1 := stop_hi D d1 in
  let lo1 := stop_lo D d1 in
  let c1 := cycles_of hi1 lo1 in
  let d3 := timer_started D (stop_end D d1) in
  let sw := software_matrix_operations A B SW_Sum SW_Diff SW_Prod in
  run D n (main_round A B (SW_Sum, SW_Diff, SW_Prod) (HW_Sum, HW_Diff, HW_Prod)) d =
  and_then
    (straight ((timer_start_trace ++ timer_stop_trace hi1 lo1 ++ timer_start_trace)
               ++ start_writes A B) tt (started D A B d3) n)
    (fun _ d4 n4 =>
       and_then (run D n4 poll_status d4)
         (fun _ d5 n5 =>
            and_then (read_stage D (HW_Sum, HW_Diff, HW_Prod) d5 n5)
              (fun hw d6 n6 =>
                 straight (timer_stop_trace (stop_hi D d6) (stop_lo D d6))
                   (Report sw hw c1 (cycles_of (stop_hi D d6) (stop_lo D d6))
                      (speedup_of c1 (cycles_of (stop_hi D d6) (stop_lo D d6))))
                   (stop_end D d6) n6))).
Proof.
  intros d1 hi1 lo1 c1 d3 sw. revert n. unfold main_round.
  assert (Hfront : forall m,
             run D m (timer_start ;;; c <- timer_stop_and_read ;; timer_start ;;; Ret c) d =
             straight (timer_start_trace ++ timer_stop_trace hi1 lo1 ++ timer_start_trace)
                      c1 d3 m).
  { assert (H : forall m,
               run D m (timer_start ;;; c <- timer_stop_and_read ;; timer_start ;;; Ret c) d =
               straight (timer_start_trace ++ timer_stop_trace hi1 lo1 ++
                         timer_start_trace ++ []) c1 d3 m).
    { refine (straight_bind D _ _ d d1 d3 _ _ tt _
                (fun m => straight_timer_start D d m) _).
      refine (straight_bind D _ _ d1 _ d3 _ _ c1 _ (fun m => straight_stop D d1 m) _).
      refine (straight_bind D _ _ _ d3 d3 _ _ tt _
                (fun m => straight_timer_start D _ m) _).
      intros m. apply straight_ret. }
    intros m. specialize (H m). rewrite app_nil_r in H. exact H. }
  intros n.
  transitivity
    (run D n
       (ITree.bind (timer_start ;;; c <- timer_stop_and_read ;; timer_start ;;; Ret c)
          (fun c =>
             hw <- hardware_matrix_operations A B HW_Sum HW_Diff HW_Prod ;;
             hw_cycles <- timer_stop_and_read ;;
             Ret (Report sw hw c hw_cycles (speedup_of c hw_cycles)))) d).
  - rewrite !run_bind. rewrite !and_then_assoc.
    apply and_then_ext. intros _ e1 m1.
    rewrite !run_bind. rewrite !and_then_assoc.
    apply and_then_ext. intros c e2 m2.
    rewrite !run_bind. rewrite !and_then_assoc.
    apply and_then_ext. intros _ e3 m3.
    rewrite run_ret. cbn [and_then app].
    destruct (run D m3 _ e3) as [tr o]. reflexivity.
  - revert n.
    refine (straight_prefix D _ _ d d3 _ _ _ c1 tt _ Hfront _).
    intros m. rewrite run_driver_then.
    apply and_then_ext. intros _ d4 n4.
    apply and_then_ext. intros _ d5 n5.
    apply and_then_ext. intros hw d6 n6.
    apply straight_report.
Qed.

End Round.

Lemma round_front_length (A B : list Z) (hi lo : Z) :
  length ((timer_start_trace ++ timer_stop_trace hi lo ++ timer_start_trace)
          ++ start_writes A B) = 43%nat.
Proof. reflexivity. Qed.

(** Any observation of a round, and what a round that returned did. *)
Lemma round_cases (D : device)
    (A B SW_Sum SW_Diff SW_Prod HW_Sum HW_Diff HW_Prod : list Z)
    (d : dstate D) (fuel : nat) :
  let round := main_round A B (SW_Sum, SW_Diff, SW_Prod) (HW_Sum, HW_Diff, HW_Prod) in
  exists hi1 lo1 polls last s df p hi2 lo2,
    Forall (fun w => done_bit w = 0) polls /\ done_bit last = 1 /\
    (in_uint32 lo1 /\ in_uint32 lo2) /\
    fst (run D fuel round d)
      `prefix_of` round_trace A B hi1 lo1 polls last s df p hi2 lo2 /\
    (returned (snd (run D fuel round d)) ->
     fst (run D fuel round d) = round_trace A B hi1 lo1 polls last s df p hi2 lo2 /\
     (length s = 16%nat /\ Forall in_uint32 s) /\
     (length df = 16%nat /\ Forall in_uint32 df) /\
     (length p = 16%nat /\ Forall in_uint32 p) /\
     result_of (snd (run D fuel round d)) =
       Some (Report (software_matrix_operations A B SW_Sum SW_Diff SW_Prod)
               (filled HW_Sum s, filled HW_Diff df, filled HW_Prod p)
               (cycles_of hi1 lo1) (cycles_of hi2 lo2)
               (speedup_of (cycles_of hi1 lo1) (cycles_of hi2 lo2)))).
Proof.
  intros round. destruct (run D fuel round d) as [tr o] eqn:E. subst round.
  rewrite main_round_run in E. cbv zeta in E. cbn [fst snd].
  set (d1 := timer_started D d) in E.
  set (hi1 := stop_hi D d1) in E. set (lo1 := stop_lo D d1) in E.
  set (d3 := timer_started D (stop_end D d1)) in E.
  set (front := (timer_start_trace ++ timer_stop_trace hi1 lo1 ++ timer_start_trace)
                ++ start_writes A B) in E.
  assert (Hlo1 : in_uint32 lo1) by apply to_uint32_range.
  assert (Hfront : forall polls last s df p hi2 lo2 rest,
             status_reads polls ++ [Rd STATUS_REG last] ++
             (result_reads SUM_OFFSET s ++ result_reads DIFF_OFFSET df ++
              result_reads PROD_OFFSET p) ++ timer_stop_trace hi2 lo2 = rest ->
             round_trace A B hi1 lo1 polls last s df p hi2 lo2 = front ++ rest).
  { intros polls last s df p hi2 lo2 rest <-. unfold round_trace, protocol_trace, front.
    rewrite <- !app_assoc. reflexivity. }
  assert (Hlen : length front = 43%nat) by apply round_front_length.
  unfold straight at 1 in E. rewrite Hlen in E.
  destruct (Nat.leb_spec 43 fuel) as [Hle|Hlt]; cbn [and_then] in E.
  - rewrite firstn_all2 in E by (rewrite Hlen; exact Hle).
    destruct (run_poll_cases D (fuel - 43) (started D A B d3))
      as [polls [Hpolls [Hrun|(last & d5 & m & Hlast & Hrun)]]];
      rewrite Hrun in E; cbn [and_then] in E.
    + apply pair_equal_spec in E; destruct E as [<- <-].
      exists hi1, lo1, polls, 1, [], [], [], 0, 0.
      split; [exact Hpolls|]. split; [reflexivity|].
      split; [split; [exact Hlo1|unfold in_uint32; lia]|].
      split; [|intros []].
      rewrite (Hfront polls 1 [] [] [] 0 0 _ eq_refl).
      eexists. rewrite <- !app_assoc. reflexivity.
    + unfold read_stage in E.
      pose proof (dev_loads_length D (region SUM_OFFSET) d5) as L1.
      pose proof (dev_loads_uint32 D (region SUM_OFFSET) d5) as U1.
      destruct (dev_loads D (region SUM_OFFSET) d5) as [s e1].
      pose proof (dev_loads_length D (region DIFF_OFFSET) e1) as L2.
      pose proof (dev_loads_uint32 D (region DIFF_OFFSET) e1) as U2.
      destruct (dev_loads D (region DIFF_OFFSET) e1) as [df e2].
      pose proof (dev_loads_length D (region PROD_OFFSET) e2) as L3.
      pose proof (dev_loads_uint32 D (region PROD_OFFSET) e2) as U3.
      destruct (dev_loads D (region PROD_OFFSET) e2) as [p d6].
      cbn [fst] in L1, U1, L2, U2, L3, U3.
      set (reads := result_reads SUM_OFFSET s ++ result_reads DIFF_OFFSET df ++
                    result_reads PROD_OFFSET p) in E.
      set (hi2 := stop_hi D d6). set (lo2 := stop_lo D d6).
      assert (Hlo2 : in_uint32 lo2) by apply to_uint32_range.
      exists hi1, lo1, polls, last, s, df, p, hi2, lo2.
      split; [exact Hpolls|]. split; [exact Hlast|].
      split; [split; assumption|].
      rewrite (Hfront polls last s df p hi2 lo2 _ eq_refl). fold reads.
      unfold straight at 1 in E.
      destruct (Nat.leb_spec (length reads) m) as [Hm|Hm]; cbn [and_then] in E.
      * rewrite (firstn_all2 reads) in E by exact Hm. unfold straight in E.
        fold hi2 lo2 in E.
        destruct (Nat.leb_spec (length (timer_stop_trace hi2 lo2)) (m - length reads))
          as [Hs|Hs]; apply pair_equal_spec in E; destruct E as [<- <-].
        -- rewrite firstn_all2 by exact Hs.
           match goal with
           | |- ?t `prefix_of` ?u /\ _ =>
               assert (Heq : t = u) by (rewrite <- !app_assoc; reflexivity)
           end.
           rewrite Heq. split; [exists []; rewrite app_nil_r; reflexivity|].
           intros _. split; [reflexivity|].
           split; [split; assumption|]. split; [split; assumption|].
           split; [split; assumption|]. reflexivity.
        -- split; [|intros []].
           exists (skipn (m - length reads) (timer_stop_trace hi2 lo2)).
           rewrite <- (firstn_skipn (m - length reads) (timer_stop_trace hi2 lo2)) at 1.
           rewrite <- !app_assoc. reflexivity.
      * apply pair_equal_spec in E; destruct E as [<- <-]. split; [|intros []].
        exists (skipn m reads ++ timer_stop_trace hi2 lo2).
        rewrite <- (firstn_skipn m reads) at 1. rewrite <- !app_assoc. reflexivity.
  - apply pair_equal_spec in E; destruct E as [<- <-].
    exists hi1, lo1, [], 1, [], [], [], 0, 0.
    split; [constructor|]. split; [reflexivity|].
    split; [split; [exact Hlo1|unfold in_uint32; lia]|].
    split; [|intros []].
    rewrite (Hfront [] 1 [] [] [] 0 0 _ eq_refl).
    eexists. rewrite <- (firstn_skipn fuel front) at 1.
    rewrite <- !app_assoc. reflexivity.
Qed.

(** X14. A round of [main], on any device and however long it is
    observed, makes its accesses in this order: the three stores of the
    timer start, at once the four accesses of the read-back (the software
    engine runs between them without any access), the three stores of the
    second timer start, the call of the driver, and the four accesses of
    the second read-back; a round that returned made all of them. *)
Theorem round_access_order (D : device)
    (A B SW_Sum SW_Diff SW_Prod HW_Sum HW_Diff HW_Prod : list Z)
    (d : dstate D) (fuel : nat) :
  let round := main_round A B (SW_Sum, SW_Diff, SW_Prod) (HW_Sum, HW_Diff, HW_Prod) in
  exists hi1 lo1 polls last s df p hi2 lo2,
    Forall (fun w => done_bit w = 0) polls /\ done_bit last = 1 /\
    fst (run D fuel round d)
      `prefix_of` round_trace A B hi1 lo1 polls last s df p hi2 lo2 /\
    (returned (snd (run D fuel round d)) ->
     fst (run D fuel round d) = round_trace A B hi1 lo1 polls last s df p hi2 lo2).
Proof.
  intros round.
  destruct (round_cases D A B SW_Sum SW_Diff SW_Prod HW_Sum HW_Diff HW_Prod d fuel)
    as (hi1 & lo1 & polls & last & s & df & p & hi2 & lo2 &
        Hpolls & Hlast & _ & Hpre & Hret).
  exists hi1, lo1, polls, last, s, df, p, hi2, lo2.
  split; [exact Hpolls|]. split; [exact Hlast|]. split; [exact Hpre|].
  intros Hr. exact (proj1 (Hret Hr)).
Qed.

Lemma speedup_of_none (c1 c2 : Z) : speedup_of c1 c2 = None <-> c2 = 0.
Proof.
  unfold speedup_of, udiv32. destruct (Z.eqb_spec c2 0) as [->|Hne];
    cbn [fmap option_fmap option_map]; split; intros H;
    try reflexivity; try discriminate; contradiction.
Qed.

(** X15. A round of [main] that returned, with hardware result buffers of
    sixteen cells: the software results of the report are those of the
    software engine whatever the devices did, the hardware results are the
    words loaded from the result regions read as two's complement, the two
    cycle counts are 0xFFFFFFFF minus the two counts read back, and the
    speedup is missing exactly when the second count read back is
    0xFFFFFFFF. *)
Theorem round_report (D : device)
    (A B SW_Sum SW_Diff SW_Prod HW_Sum HW_Diff HW_Prod : list Z)
    (d : dstate D) (fuel : nat) :
  let round := main_round A B (SW_Sum, SW_Diff, SW_Prod) (HW_Sum, HW_Diff, HW_Prod) in
  length HW_Sum = 16%nat -> length HW_Diff = 16%nat -> length HW_Prod = 16%nat ->
  returned (snd (run D fuel round d)) ->
  exists hi1 lo1 polls last s df p hi2 lo2 r,
    fst (run D fuel round d) = round_trace A B hi1 lo1 polls last s df p hi2 lo2 /\
    result_of (snd (run D fuel round d)) = Some r /\
    sw_results r = software_matrix_operations A B SW_Sum SW_Diff SW_Prod /\
    hw_results r = (map signed32 s, map signed32 df, map signed32 p) /\
    sw_cycles r = 4294967295 - count_of hi1 lo1 /\
    hw_cycles r = 4294967295 - count_of hi2 lo2 /\
    speedup r = speedup_of (sw_cycles r) (hw_cycles r) /\
    (speedup r = None <-> count_of hi2 lo2 = 4294967295).
Proof.
  intros round HS HD HP Hr.
  destruct (round_cases D A B SW_Sum SW_Diff SW_Prod HW_Sum HW_Diff HW_Prod d fuel)
    as (hi1 & lo1 & polls & last & s & df & p & hi2 & lo2 &
        _ & _ & [Hlo1 Hlo2] & _ & Hret).
  destruct (Hret Hr) as (Htr & [L1 U1] & [L2 U2] & [L3 U3] & Hres).
  destruct (cycles_of_spec hi1 lo1 Hlo1) as [_ Hc1].
  destruct (cycles_of_spec hi2 lo2 Hlo2) as [_ Hc2].
  eexists hi1, lo1, polls, last, s, df, p, hi2, lo2, _.
  split; [exact Htr|]. split; [exact Hres|]. cbn [sw_results hw_results sw_cycles
    hw_cycles speedup].
  split; [reflexivity|]. split.
  - rewrite (filled_decoded HW_Sum s HS L1), (filled_decoded HW_Diff df HD L2),
            (filled_decoded HW_Prod p HP L3).
    unfold decoded.
    assert (Hmap : forall ws, Forall in_uint32 ws -> map to_int32 ws = map signed32 ws).
    { intros ws Hws. apply map_ext_in. intros w Hw.
      rewrite List.Forall_forall in Hws. apply signed32_spec, Hws, Hw. }
    rewrite (Hmap s U1), (Hmap df U2), (Hmap p U3). reflexivity.
  - split; [exact Hc1|]. split; [exact Hc2|]. split; [reflexivity|].
    rewrite speedup_of_none, Hc2. lia.
Qed.

Lemma round_report_witness :
  let round := main_round sample_A sample_B
                 (zeros16, zeros16, zeros16) (zeros16, zeros16, zeros16) in
  exists hi1 lo1 polls last s df p hi2 lo2 r,
    fst (run (board 2 4294966000) 400 round accel_reset)
      = round_trace sample_A sample_B hi1 lo1 polls last s df p hi2 lo2 /\
    result_of (snd (run (board 2 4294966000) 400 round accel_reset)) = Some r /\
    sw_results r = software_matrix_operations sample_A sample_B zeros16 zeros16 zeros16 /\
    hw_results r = (map signed32 s, map signed32 df, map signed32 p) /\
    sw_cycles r = 4294967295 - count_of hi1 lo1 /\
    hw_cycles r = 4294967295 - count_of hi2 lo2 /\
    speedup r = speedup_of (sw_cycles r) (hw_cycles r) /\
    (speedup r = None <-> count_of hi2 lo2 = 4294967295).
Proof.
  apply (round_report (board 2 4294966000) sample_A sample_B
           zeros16 zeros16 zeros16 zeros16 zeros16 zeros16 accel_reset 400).
  - reflexivity.
  - reflexivity.
  - reflexivity.
  - vm_compute. exact I.
Defined.

Lemma silent_round_running (A B : list Z) (SW0 HW0 : list Z * list Z * list Z)
    (fuel : nat) :
  snd (run silent_device fuel (main_round A B SW0 HW0) tt) = Running.
Proof.
  destruct SW0 as [[S0 D0] P0]. destruct HW0 as [[HS HD] HP].
  rewrite main_round_run. cbv zeta. unfold straight at 1.
  destruct (_ <=? fuel)%nat; cbn [and_then]; [|reflexivity].
  match goal with
  | |- snd (let '(_, _) := and_then (run silent_device ?n poll_status ?e) _ in _) = _ =>
      pose proof (silent_poll_running n e) as H;
      destruct (run silent_device n poll_status e) as [tr o]
  end.
  cbn [snd] in H. subst o. reflexivity.
Qed.

(** X16. A round of [main] returns only after a status read with bit 0
    set: while every status read has bit 0 clear the round is still
    running after any number of steps and produces no report; so it is on
    a device whose status register always reads 0. *)
Theorem round_hangs_with_the_driver (D : device)
    (A B SW_Sum SW_Diff SW_Prod HW_Sum HW_Diff HW_Prod : list Z) (d : dstate D) :
  let round := main_round A B (SW_Sum, SW_Diff, SW_Prod) (HW_Sum, HW_Diff, HW_Prod) in
  (forall fuel,
     returned (snd (run D fuel round d)) ->
     exists w, In (Rd STATUS_REG w) (fst (run D fuel round d)) /\ done_bit w = 1) /\
  ((forall fuel w, In (Rd STATUS_REG w) (fst (run D fuel round d)) -> done_bit w = 0) ->
   forall fuel,
     snd (run D fuel round d) = Running /\
     result_of (snd (run D fuel round d)) = None) /\
  (forall fuel,
     snd (run silent_device fuel round tt) = Running /\
     result_of (snd (run silent_device fuel round tt)) = None).
Proof.
  intros round.
  assert (Hret : forall fuel,
             returned (snd (run D fuel round d)) ->
             exists w, In (Rd STATUS_REG w) (fst (run D fuel round d)) /\ done_bit w = 1).
  { intros fuel Hr.
    destruct (round_cases D A B SW_Sum SW_Diff SW_Prod HW_Sum HW_Diff HW_Prod d fuel)
      as (hi1 & lo1 & polls & last & s & df & p & hi2 & lo2 &
          _ & Hlast & _ & _ & Hall).
    fold round in Hall. destruct (Hall Hr) as [Htr _]. rewrite Htr.
    exists last. split; [|exact Hlast].
    unfold round_trace, protocol_trace. rewrite !in_app_iff.
    right. right. right. left. right. right. left. left. reflexivity. }
  split; [exact Hret|]. split.
  - intros Hzero fuel.
    destruct (snd (run D fuel round d)) as [r d1 m|] eqn:E; [|split; reflexivity].
    destruct (Hret fuel) as (w & Hin & Hw); [rewrite E; exact I|].
    rewrite (Hzero fuel w Hin) in Hw. discriminate.
  - intros fuel. subst round.
    rewrite (silent_round_running A B _ _ fuel). split; reflexivity.
Qed.

(** The example round: on the board with a latency of two status reads
    and a timer that reads 0xFFFFFAF0, both cycle counts are 1295 and the
    speedup is 1. *)
Example round_example :
  result_of
    (snd (run (board 2 4294966000) 400
            (main_round sample_A sample_B
               (zeros16, zeros16, zeros16) (zeros16, zeros16, zeros16))
            accel_reset))
  = Some (Report
            (software_matrix_operations sample_A sample_B zeros16 zeros16 zeros16)
            (software_matrix_operations sample_A sample_B zeros16 zeros16 zeros16)
            1295 1295 (Some 1)).
Proof. vm_compute. reflexivity. Qed.

(** ** Bus traffic of a call *)

Lemma stores_status_reads (ws : list Z) :
  stores (status_reads ws) = [] /\ length (loads (status_reads ws)) = length ws.
Proof.
  unfold stores, loads, status_reads.
  induction ws as [|w ws [IH1 IH2]]; [split; reflexivity|].
  cbn [map List.filter is_store negb length]. rewrite IH1, IH2. split; reflexivity.
Qed.

Lemma protocol_trace_traffic (A B polls : list Z) (last : Z) (s df p : list Z) :
  let tr := protocol_trace A B polls last s df p in
  length (stores tr) = 33%nat /\
  length (loads tr) = (49 + length polls)%nat /\
  length tr = (82 + length polls)%nat.
Proof.
  intros tr. subst tr. unfold protocol_trace, stores, loads.
  destruct (stores_status_reads polls) as [Hs Hl]. unfold stores, loads in Hs, Hl.
  rewrite !List.filter_app, !length_app, Hs, Hl.
  unfold status_reads. rewrite length_map.
  change (length (List.filter is_store (start_writes A B))) with 33%nat.
  change (length (List.filter (fun a => negb (is_store a)) (start_writes A B)))
    with 0%nat.
  change (length (start_writes A B)) with 33%nat.
  cbn [List.filter is_store negb length result_reads map seq Nat.add].
  repeat split; lia.
Qed.

(** X17. A call of the driver that returned, on any device, made
    thirty-three stores, and one load for each status read and for each of
    the forty-eight result registers: with [k] status reads that had bit 0
    clear, [82 + k] accesses in all, never fewer than 82. *)
Theorem driver_bus_traffic (D : device)
    (A B HW_Sum HW_Diff HW_Prod : list Z) (d : dstate D) (fuel : nat) :
  returned (snd (run D fuel (hardware_matrix_operations A B HW_Sum HW_Diff HW_Prod) d)) ->
  let tr := fst (run D fuel (hardware_matrix_operations A B HW_Sum HW_Diff HW_Prod) d) in
  exists polls last s df p,
    Forall (fun w => done_bit w = 0) polls /\ done_bit last = 1 /\
    tr = protocol_trace A B polls last s df p /\
    length (stores tr) = 33%nat /\
    length (loads tr) = (49 + length polls)%nat /\
    length tr = (82 + length polls)%nat /\
    (82 <= length tr)%nat.
Proof.
  intros Hret tr.
  destruct (driver_returned D A B HW_Sum HW_Diff HW_Prod d fuel Hret)
    as (polls & last & s & df & p & Hpolls & Hlast & _ & _ & _ & Htr & _).
  fold tr in Htr.
  destruct (protocol_trace_traffic A B polls last s df p) as (H1 & H2 & H3).
  exists polls, last, s, df, p. rewrite Htr.
  split; [exact Hpolls|]. split; [exact Hlast|]. split; [reflexivity|].
  split; [exact H1|]. split; [exact H2|]. split; [exact H3|]. lia.
Qed.

Lemma driver_bus_traffic_witness :
  let tr := fst (run (accel_device 3) 100
                   (hardware_matrix_operations sample_A sample_B zeros16 zeros16 zeros16)
                   accel_reset) in
  exists polls last s df p,
    Forall (fun w => done_bit w = 0) polls /\ done_bit last = 1 /\
    tr = protocol_trace sample_A sample_B polls last s df p /\
    length (stores tr) = 33%nat /\
    length (loads tr) = (49 + length polls)%nat /\
    length tr = (82 + length polls)%nat /\
    (82 <= length tr)%nat.
Proof.
  apply (driver_bus_traffic (accel_device 3) sample_A sample_B
           zeros16 zeros16 zeros16 accel_reset 100).
  vm_compute. exact I.
Defined.
